(** * FastAPI Async Demo: a shallow embedding of [app/utils.py],
    [app/database.py] and [app/main.py]

  The Python modules are embedded as Rocq modules of the same names,
  after the parts of the libraries they call ([json], [httpx], [asyncio],
  the SQLAlchemy session, FastAPI's request handling).  Integers are
  unbounded ([Z]), strings are [string], floats are the binary64 floats of
  [PrimFloat].  Code that can raise returns a [result]; code that works on
  a database session passes the session state along. *)

From Stdlib Require Import ZArith Lia PrimFloat Ascii.
From stdpp Require Import base option list strings pretty gmap.

Open Scope string_scope.
Open Scope list_scope.
Open Scope Z_scope.

(** ** Python runtime: results, [range], [str] *)

Module python.

(** A call either returns a value or raises. *)
Inductive result (E A : Type) : Type :=
| Return (a : A)
| Raise (e : E).
Arguments Return {E A} a.
Arguments Raise {E A} e.

Definition bind {E A B} (m : result E A) (k : A → result E B) : result E B :=
  match m with
  | Return a => k a
  | Raise e => Raise e
  end.

(** [range(n)] for an integer [n]: [0, 1, ..., n-1], empty when [n <= 0]. *)
Definition range (n : Z) : list Z := Z.of_nat <$> seq 0 (Z.to_nat n).

(** [str(i)] for an integer: decimal digits, with a leading minus sign. *)
Definition str_int (i : Z) : string := pretty i.

End python.

Import python.

(** ** [json] values and the [httpx] client *)

Module json.

(** A parsed JSON document, as [json.loads] and [Response.json()] build it
    from Python dicts, lists, strings, numbers, booleans and [None]. *)
#[warnings="-register-all"] Inductive value : Type :=
| JNull
| JBool (b : bool)
| JInt (i : Z)
| JFloat (f : float)
| JString (s : string)
| JArray (items : list value)
| JObject (members : list (string * value)).

(** Whether [json.dumps(document, allow_nan=False)], with which a
    [JSONResponse] renders its content, accepts the document: it raises
    [ValueError] on a float that is [nan] or infinite. *)
Fixpoint finite (document : value) : bool :=
  match document with
  | JFloat f => PrimFloat.is_finite f
  | JArray items => forallb finite items
  | JObject members => forallb (λ member, match member with (_, v) => finite v end) members
  | _ => true
  end.

End json.

Module httpx.

(** The classes of what a call into [httpx] or [json] can raise.  The last
    two derive from [BaseException] only, so [except Exception] lets them
    through; every other class derives from [Exception]. *)
Inductive exc_class : Type :=
| TimeoutException
| ConnectError
| UnsupportedProtocol
| JSONDecodeError
| OtherException
| CancelledError
| KeyboardInterrupt.

Record exception : Type := { cls : exc_class; message : string }.

Definition isinstance_Exception (e : exception) : bool :=
  match cls e with
  | CancelledError | KeyboardInterrupt => false
  | _ => true
  end.

(** [str(e)] *)
Definition str (e : exception) : string := message e.

Record Response : Type := { status_code : Z; content : string }.

(** What the network does to one [AsyncClient]: entering the client,
    [client.get(url, timeout=timeout)], and leaving the client. *)
Record AsyncClient : Type := {
  aenter : result exception unit;
  get : string → float → result exception Response;
  aexit : result exception unit
}.

(** [async with cm: body]: [__aenter__], the body, then [__aexit__] on
    every path; an exception raised by [__aexit__] replaces the outcome of
    the body. *)
Definition async_with {A} (enter leave : result exception unit)
    (body : result exception A) : result exception A :=
  match enter with
  | Raise e => Raise e
  | Return _ =>
      match leave with
      | Raise e => Raise e
      | Return _ => body
      end
  end.

(** [try: body except Exception as e: handler(e)] *)
Definition try_except_Exception {A} (body : result exception A)
    (handler : exception → result exception A) : result exception A :=
  match body with
  | Return a => Return a
  | Raise e => if isinstance_Exception e then handler e else Raise e
  end.

(** Whatever [r] raises derives from [Exception]. *)
Definition fails_with_Exception {A} (r : result exception A) : Prop :=
  match r with
  | Return _ => True
  | Raise e => isinstance_Exception e = true
  end.

(** The network fails only with exceptions proper: whatever entering the
    client, the GET or leaving the client raise derives from [Exception]
    (timeouts, connection errors, protocol errors); it is not a
    cancellation of the task or an interrupt of the interpreter. *)
Definition network_failures (client : AsyncClient) (url : string) (timeout : float) : Prop :=
  fails_with_Exception (aenter client) ∧
  fails_with_Exception (get client url timeout) ∧
  fails_with_Exception (aexit client).

End httpx.

(** ** [asyncio]: coroutines and [gather] *)

Module asyncio.

(** An [async def] body built from [print], [await asyncio.sleep(s)] and a
    final [return] or [raise]. *)
Inductive coroutine (E A : Type) : Type :=
| Done (outcome : result E A)
| Print (line : string) (rest : coroutine E A)
| Sleep (seconds : float) (rest : coroutine E A).
Arguments Done {E A} outcome.
Arguments Print {E A} line rest.
Arguments Sleep {E A} seconds rest.

(** What the coroutine returns or raises once it has run to its end. *)
Fixpoint outcome_of {E A} (c : coroutine E A) : result E A :=
  match c with
  | Done outcome => outcome
  | Print _ rest => outcome_of rest
  | Sleep _ rest => outcome_of rest
  end.

(** The lines it prints, in order. *)
Fixpoint stdout_of {E A} (c : coroutine E A) : list string :=
  match c with
  | Done _ => []
  | Print line rest => line :: stdout_of rest
  | Sleep _ rest => stdout_of rest
  end.

(** The delays it asks the event loop for, in order. *)
Fixpoint delays_of {E A} (c : coroutine E A) : list float :=
  match c with
  | Done _ => []
  | Print _ rest => delays_of rest
  | Sleep seconds rest => seconds :: delays_of rest
  end.

(** [x = await c; k x]: the awaiting coroutine goes on only when [c] is
    done, and an exception of [c] ends it. *)
Fixpoint await {E A B} (c : coroutine E A) (k : A → coroutine E B) : coroutine E B :=
  match c with
  | Done (Return a) => k a
  | Done (Raise e) => Done (Raise e)
  | Print line rest => Print line (await rest k)
  | Sleep seconds rest => Sleep seconds (await rest k)
  end.

(** [gather] over the children.  Every child is wrapped in a future that
    holds the child's result once the child is done: [futures !! i] is
    [None] while child [i] runs and [Some a] when it has returned [a].  The
    event loop completes the children in some order; [child_done] is what
    happens when child [i] completes. *)
Definition child_done {E A} (children : list (coroutine E A)) (i : nat)
    (futures : list (option A)) : result E (list (option A)) :=
  match children !! i with
  | None => Return futures
  | Some child =>
      match outcome_of child with
      | Return a => Return (<[i := Some a]> futures)
      | Raise e => Raise e
      end
  end.

Fixpoint run_children {E A} (children : list (coroutine E A)) (order : list nat)
    (futures : list (option A)) : result E (list (option A)) :=
  match order with
  | [] => Return futures
  | i :: later => bind (child_done children i futures) (run_children children later)
  end.

(** The outcome of [await gather(...)] when the children complete in the
    order [order]: the first exception of a child is raised to the
    awaiter; when every child is done the results are
    [[fut.result() for fut in futures]]; while some child is still running
    the awaiter stays suspended ([None]). *)
Definition gather {E A} (children : list (coroutine E A)) (order : list nat)
    : option (result E (list A)) :=
  match run_children children order (replicate (length children) None) with
  | Raise e => Some (Raise e)
  | Return futures => Return <$> mapM id futures
  end.

(** Every future that is done holds the outcome of its own child. *)
Definition futures_agree {E A} (children : list (coroutine E A))
    (futures : list (option A)) : Prop :=
  ∀ i a, futures !! i = Some (Some a) →
    ∃ child, children !! i = Some child ∧ outcome_of child = Return a.

End asyncio.

(** ** [app/models.py] and [app/schemas.py] *)

Module models.

(** Modelled from the spec: [app/models.py], which declares the [users]
    table, is not among the sources.  The columns are those the spec
    lists: [id] (integer, generated, unique), [email] (string, unique,
    required), [full_name] (optional string), [is_active] (boolean, true
    by default). *)
Record User : Type := {
  id : Z;
  email : string;
  full_name : option string;
  is_active : bool
}.

End models.

Module schemas.

(** [UserCreate(UserBase)] *)
Record UserCreate : Type := { email : string; full_name : option string }.

(** [User(UserBase)], the [response_model] of the two user endpoints.  Its
    inherited fields [email] and [full_name] are [user_email] and
    [user_full_name] here, the names being taken by [UserCreate]. *)
Record User : Type := {
  user_email : string;
  user_full_name : option string;
  id : Z;
  is_active : bool
}.

End schemas.

(** ** The SQLAlchemy session *)

Module sqlalchemy.

(** What the database endpoints can raise. *)
Inductive exception : Type :=
| HTTPException (status_code : Z) (detail : string)
| MultipleResultsFound
| IntegrityError
| InvalidRequestError
| ResponseValidationError
| Unhandled (e : httpx.exception).

(** A [models.User] object is transient from its construction until the
    flush that inserts its row, which gives it its [id]; from then on it is
    persistent. *)
Inductive orm_object : Type :=
| Transient (data : schemas.UserCreate)
| Persistent (row : models.User).

(** What an [AsyncSession] works on: the [users] table, the objects it has
    handed out ([identity_map], a reference is an index into it: commit
    and refresh change the object the caller holds), and the references of
    the objects added and not yet flushed ([new]). *)
Record AsyncSession : Type := {
  table : list models.User;
  identity_map : list orm_object;
  new : list nat
}.

(** Code that runs against a session. *)
Definition Db (A : Type) : Type := AsyncSession → result exception A * AsyncSession.

Definition ret {A} (a : A) : Db A := λ s, (Return a, s).

Definition raise {A} (e : exception) : Db A := λ s, (Raise e, s).

Definition db_bind {A B} (m : Db A) (k : A → Db B) : Db B :=
  λ s, match m s with
       | (Return a, s') => k a s'
       | (Raise e, s') => (Raise e, s')
       end.

Notation "'let!' x ':=' m 'in' k" := (db_bind m (λ x, k))
  (at level 10, x pattern, m at level 100, k at level 200).

(** [db_user = models.User(...)] from the fields of [user_data]: a new
    transient object; the reference to it is returned. *)
Definition construct (user_data : schemas.UserCreate) : Db nat :=
  λ s, (Return (length (identity_map s)),
        {| table := table s;
           identity_map := identity_map s ++ [Transient user_data];
           new := new s |}).

(** [db.add(obj)] *)
Definition add (obj : nat) : Db unit :=
  λ s, (Return (),
        {| table := table s; identity_map := identity_map s; new := new s ++ [obj] |}).

(** The [id] the database gives to the next row: SQLite, the database of
    [SQLALCHEMY_DATABASE_URL], takes one more than the largest [id] in
    the table, and [1] in an empty table.  This is the rule for a table
    whose [id]s are at least 1 and below [2^63 - 1], as are all tables
    that the application fills from an empty one; below 1 and at the last
    64-bit integer SQLite goes on differently, and what is said about the
    value of an [id] is said under that condition. *)
Definition next_id (rows : list models.User) : Z :=
  1 + foldr Z.max 0 (models.id <$> rows).

Section Schema.

(** Whether the [email] column is declared [unique=True] in the absent
    [app/models.py]. *)
Variable email_unique : bool.

(** [INSERT INTO users (email, full_name, is_active) VALUES (...)] *)
Definition insert_row (rows : list models.User) (data : schemas.UserCreate)
    : result exception (models.User * list models.User) :=
  if email_unique && bool_decide (schemas.email data ∈ models.email <$> rows)
  then Raise IntegrityError
  else
    let row := {| models.id := next_id rows;
                  models.email := schemas.email data;
                  models.full_name := schemas.full_name data;
                  models.is_active := true |} in
    Return (row, rows ++ [row]).

(** The flush: one insert per pending object, which becomes persistent. *)
Fixpoint flush (pending : list nat) (rows : list models.User) (objects : list orm_object)
    : result exception (list models.User * list orm_object) :=
  match pending with
  | [] => Return (rows, objects)
  | obj :: later =>
      match objects !! obj with
      | Some (Transient data) =>
          match insert_row rows data with
          | Return (row, rows') => flush later rows' (<[obj := Persistent row]> objects)
          | Raise e => Raise e
          end
      | _ => flush later rows objects
      end
  end.

(** [await db.commit()]: flush, then commit; a failed flush rolls the
    transaction back and raises. *)
Definition commit : Db unit :=
  λ s, match flush (new s) (table s) (identity_map s) with
       | Return (rows, objects) =>
           (Return (), {| table := rows; identity_map := objects; new := [] |})
       | Raise e => (Raise e, s)
       end.

End Schema.

(** [await db.refresh(obj)]: read the row of a persistent object again. *)
Definition refresh (obj : nat) : Db unit :=
  λ s, match identity_map s !! obj with
       | Some (Persistent row) =>
           match filter (λ r, models.id r = models.id row) (table s) with
           | row' :: _ =>
               (Return (), {| table := table s;
                              identity_map := <[obj := Persistent row']> (identity_map s);
                              new := new s |})
           | [] => (Raise InvalidRequestError, s)
           end
       | _ => (Raise InvalidRequestError, s)
       end.

(** The state of the object behind a reference, read when the reference
    is returned to FastAPI.  A reference is always one [construct] gave
    out, so the last case does not arise. *)
Definition deref (obj : nat) : Db orm_object :=
  λ s, match identity_map s !! obj with
       | Some o => (Return o, s)
       | None => (Raise InvalidRequestError, s)
       end.

(** [await db.execute(select(models.User).where(models.User.email == email))]:
    the rows whose [email] equals the argument, as persistent objects.  The
    comparison is SQL [=] on text, an exact comparison. *)
Definition execute_select_where_email (email : string) : Db (list orm_object) :=
  λ s, (Return (Persistent <$> filter (λ r, models.email r = email) (table s)), s).

(** [result.scalar_one_or_none()] *)
Definition scalar_one_or_none (rows : list orm_object) : Db (option orm_object) :=
  match rows with
  | [] => ret None
  | [row] => ret (Some row)
  | _ => raise MultipleResultsFound
  end.

End sqlalchemy.

(** ** [app/utils.py] *)

Module utils.
Import json httpx asyncio sqlalchemy.

Section Utils.

(** The text an f-string puts for a float, [format(seconds, '')]. *)
Variable float_str : float → string.

(** The exceptions of the coroutine that awaits the simulated operation. *)
Variable E : Type.

(** [json.loads] on a response body: the parsed document, or the message
    of the [JSONDecodeError] it raises. *)
Variable loads : string → value + string.

Variable email_unique : bool.

Definition simulate_slow_io_operation (seconds : float) : coroutine E string :=
  Print ("Operation started. Will take " +:+ float_str seconds +:+ " seconds...")
    (Sleep seconds
      (Print "Operation finished!"
        (Done (Return ("Result after " +:+ float_str seconds +:+ " seconds"))))).

(** The loop body of [simulate_cpu_intensive_task]: [result += i * i]. *)
Definition loop_body (result i : Z) : Z := result + i * i.

(** [simulate_cpu_intensive_task(iterations)]: the lines printed and the
    returned string. *)
Definition simulate_cpu_intensive_task (iterations : Z) : list string * string :=
  let started :=
    "CPU task started. Will process " +:+ str_int iterations +:+ " iterations..." in
  let result := foldl loop_body 0 (range iterations) in
  ([started; "CPU task finished!"], "Computed result: " +:+ str_int result).

(** [response.json()] *)
Definition Response_json (response : Response) : result httpx.exception value :=
  match loads (content response) with
  | inl document => Return document
  | inr msg => Raise {| cls := JSONDecodeError; message := msg |}
  end.

(** The body of the [try] of [fetch_external_api]. *)
Definition fetch_attempt (client : AsyncClient) (url : string) (timeout : float)
    : result httpx.exception value :=
  async_with (aenter client) (aexit client)
    (bind (get client url timeout) Response_json).

(** [{"error": str(e)}] *)
Definition error_value (msg : string) : value := JObject [("error", JString msg)].

(** [fetch_external_api(url, timeout)] with the client that the network
    gives it. *)
Definition fetch_external_api (client : AsyncClient) (url : string) (timeout : float)
    : result httpx.exception value :=
  try_except_Exception (fetch_attempt client url timeout)
    (λ e, Return (error_value (str e))).

(** The default [timeout: float = 5.0]. *)
Definition default_timeout : float := 5.0%float.

(** [get_user_by_email(db, email)]; the session [db] is the state that
    [Db] passes along. *)
Definition get_user_by_email (email : string) : Db (option orm_object) :=
  let! result := execute_select_where_email email in
  scalar_one_or_none result.

(** [create_user(db, user_data)]; [user_data] is the dictionary of the two
    fields of a [UserCreate]. *)
Definition create_user (user_data : schemas.UserCreate) : Db orm_object :=
  let! db_user := construct user_data in
  let! _ := add db_user in
  let! _ := commit email_unique in
  let! _ := refresh db_user in
  deref db_user.

End Utils.

(** The sum the summary of the CPU task is said to contain, written as
    the recurrence [S(0) = 0], [S(n+1) = S(n) + n*n]: the sum of [i*i] for
    [i] from [0] to [n-1]. *)
Fixpoint sum_of_squares_below (n : nat) : Z :=
  match n with
  | O => 0
  | S k => sum_of_squares_below k + Z.of_nat k * Z.of_nat k
  end.

End utils.

(** ** [app/database.py] *)

Module database.
Import sqlalchemy.

(** The database and its sessions: the [users] table, the sessions that
    are open (each holds a connection) and the number of sessions made so
    far. *)
Record server : Type := {
  users : list models.User;
  open_sessions : gset nat;
  sessions_made : nat
}.

(** The server at its first start: an empty table, no session. *)
Definition initial_server : server :=
  {| users := []; open_sessions := ∅; sessions_made := 0 |}.

(** Code that runs in the application, around the sessions. *)
Definition App (A : Type) : Type := server → result exception A * server.

Definition app_bind {A B} (m : App A) (k : A → App B) : App B :=
  λ srv, match m srv with
         | (Return a, srv') => k a srv'
         | (Raise e, srv') => (Raise e, srv')
         end.

(** [try: body finally: final]: [final] runs after [body] whether [body]
    returned or raised; an exception of [final] replaces the outcome. *)
Definition try_finally {A} (body : App A) (final : App unit) : App A :=
  λ srv, let '(r, srv') := body srv in
         match final srv' with
         | (Return _, srv'') => (r, srv'')
         | (Raise e, srv'') => (Raise e, srv'')
         end.

(** [AsyncSessionLocal()] entered: a new session, open. *)
Definition AsyncSessionLocal : App nat :=
  λ srv, (Return (sessions_made srv),
          {| users := users srv;
             open_sessions := {[sessions_made srv]} ∪ open_sessions srv;
             sessions_made := S (sessions_made srv) |}).

(** [await session.close()]; closing a closed session does nothing. *)
Definition close (session : nat) : App unit :=
  λ srv, (Return (),
          {| users := users srv;
             open_sessions := open_sessions srv ∖ {[session]};
             sessions_made := sessions_made srv |}).

(** A session that has just been made: it sees the table and holds no
    object yet. *)
Definition fresh_session (rows : list models.User) : AsyncSession :=
  {| table := rows; identity_map := []; new := [] |}.

(** [yield session]: the request runs with the session; what it committed
    is in the table afterwards. *)
Definition yield {A} (session : nat) (request : Db A) : App A :=
  λ srv, let '(r, s) := request (fresh_session (users srv)) in
         (r, {| users := table s;
                open_sessions := open_sessions srv;
                sessions_made := sessions_made srv |}).

(** [get_async_db], driven by FastAPI for one request: the part before
    the [yield], the request, then the [finally] and the exit of the
    [async with], which closes the session too. *)
Definition get_async_db {A} (request : Db A) : App A :=
  app_bind AsyncSessionLocal (λ session,
    try_finally
      (try_finally (yield session request) (close session))
      (close session)).

End database.

(** ** [app/main.py] *)

Module main.
Import json httpx asyncio sqlalchemy.

(** The dictionary the two performance endpoints return.  Its
    [total_time] entry is a wall-clock measurement taken with [time.time()]
    and is not part of the record. *)
Record performance_report : Type := { results : list string; message : string }.

Record fetch_report : Type := { fetched : list value; fetch_message : string }.

Section Main.

Variable float_str : float → string.
Variable E : Type.
Variable loads : string → value + string.
Variable email_unique : bool.

(** [get_user(user_email, db)] *)
Definition get_user (user_email : string) : Db orm_object :=
  let! user := utils.get_user_by_email user_email in
  match user with
  | None => raise (HTTPException 404 "User not found")
  | Some user => ret user
  end.

(** [create_user(user, db)] *)
Definition create_user (user : schemas.UserCreate) : Db orm_object :=
  let! existing_user := utils.get_user_by_email (schemas.email user) in
  match existing_user with
  | Some _ => raise (HTTPException 400 "Email already registered")
  | None =>
      let! db_user := utils.create_user email_unique user in
      ret db_user
  end.

Definition urls : list string :=
  [ "https://jsonplaceholder.typicode.com/posts/1";
    "https://jsonplaceholder.typicode.com/comments/1";
    "https://jsonplaceholder.typicode.com/albums/1" ].

(** [fetch_external_data]: one [fetch_external_api] per URL under
    [gather]; [network url] is what the network does to the client opened
    for [url], [order] the order in which the fetches complete. *)
Definition fetch_external_data (network : string → AsyncClient) (order : list nat)
    : option (result httpx.exception fetch_report) :=
  let tasks :=
    (λ url, Done (utils.fetch_external_api loads (network url) url utils.default_timeout))
      <$> urls in
  flip bind (λ results,
      Return {| fetched := results;
                fetch_message := "Fetched from multiple APIs concurrently" |})
  <$> gather tasks order.

(** [get_user_with_external_data(user_email, db)] *)
Definition get_user_with_external_data (client : AsyncClient) (user_email : string)
    : Db (orm_object * value) :=
  let! user := utils.get_user_by_email user_email in
  match user with
  | None => raise (HTTPException 404 "User not found")
  | Some user =>
      match utils.fetch_external_api loads client
              "https://jsonplaceholder.typicode.com/posts/1" utils.default_timeout with
      | Return external_data => ret (user, external_data)
      | Raise e => raise (Unhandled e)
      end
  end.

(** [performance_async]: three operations of [1.0] second under [gather];
    [order] is the order in which the event loop completes them. *)
Definition performance_async (order : list nat) : option (result E performance_report) :=
  flip bind (λ results,
      Return {| results := results; message := "Async operations ran concurrently" |})
  <$> gather [ utils.simulate_slow_io_operation float_str E 1.0%float;
               utils.simulate_slow_io_operation float_str E 1.0%float;
               utils.simulate_slow_io_operation float_str E 1.0%float ] order.

(** [performance_sync]: the same three operations awaited one after the
    other. *)
Definition performance_sync : coroutine E performance_report :=
  await (utils.simulate_slow_io_operation float_str E 1.0%float) (λ result1,
  await (utils.simulate_slow_io_operation float_str E 1.0%float) (λ result2,
  await (utils.simulate_slow_io_operation float_str E 1.0%float) (λ result3,
  Done (Return {| results := [result1; result2; result3];
                  message := "Operations ran sequentially" |})))).

End Main.
End main.

(** ** Starlette: matching a path with one parameter *)

Module starlette.

Fixpoint has_slash (s : string) : bool :=
  match s with
  | EmptyString => false
  | String c rest => Ascii.eqb c "/"%char || has_slash rest
  end.

(** A path parameter [{name}] matches [[^/]+]: a string that is not empty
    and has no slash. *)
Definition is_segment (s : string) : bool :=
  negb (String.eqb s "") && negb (has_slash s).

(** [s.rstrip("/")] *)
Fixpoint rstrip_slashes (s : string) : string :=
  match s with
  | EmptyString => EmptyString
  | String c rest =>
      let rest' := rstrip_slashes rest in
      if Ascii.eqb c "/"%char && String.eqb rest' "" then EmptyString else String c rest'
  end.

(** What the router does with a request whose path is a fixed prefix
    followed by [rest], for a route that is the prefix followed by one
    parameter: the route matches when [rest] is a segment; when it is a
    segment followed by slashes the router redirects to the path without
    them ([redirect_slashes]); otherwise this route does not match. *)
Inductive routing : Type :=
| Dispatch (parameter : string)
| Redirect (parameter : string)
| NoMatch.

Definition match_parameter (rest : string) : routing :=
  if is_segment rest then Dispatch rest
  else if is_segment (rstrip_slashes rest) then Redirect (rstrip_slashes rest)
  else NoMatch.

End starlette.

(** ** The routes: an endpoint with its dependency and its response model *)

Module routes.
Import sqlalchemy database starlette.

(** The HTTP response of a request: the status and the body, or the
    [detail] of an error. *)
Inductive response (A : Type) : Type :=
| JSONResponse (status_code : Z) (body : A)
| ErrorResponse (status_code : Z) (detail : string)
| RedirectResponse (status_code : Z) (path : string).
Arguments JSONResponse {A} status_code body.
Arguments ErrorResponse {A} status_code detail.
Arguments RedirectResponse {A} status_code path.

(** [response_model=schemas.User] with [from_attributes]: the attributes
    of the returned object; an object without [id] does not validate. *)
Definition validate_User (user : orm_object) : result exception schemas.User :=
  match user with
  | Persistent row =>
      Return {| schemas.user_email := models.email row;
                schemas.user_full_name := models.full_name row;
                schemas.id := models.id row;
                schemas.is_active := models.is_active row |}
  | Transient _ => Raise ResponseValidationError
  end.

(** FastAPI turns an [HTTPException] into a response with its status and
    detail, and any other exception into a 500. *)
Definition respond {A} (r : result exception A) : response A :=
  match r with
  | Return body => JSONResponse 200 body
  | Raise (HTTPException status_code detail) => ErrorResponse status_code detail
  | Raise _ => ErrorResponse 500 "Internal Server Error"
  end.

Section Routes.

Variable email_unique : bool.

(** [GET /users/] followed by [rest].  The endpoint runs when [rest] is a
    segment, which is then [user_email].  Otherwise the router answers
    without a session being made: 405 for the empty [rest], where the path
    is that of the [POST] route; a redirect to the path without its
    trailing slashes when that one matches; 404 "Not Found" for the
    rest. *)
Definition get_user (rest : string) (srv : server) : response schemas.User * server :=
  match match_parameter rest with
  | Dispatch user_email =>
      let '(r, srv') := get_async_db (main.get_user user_email) srv in
      (respond (bind r validate_User), srv')
  | Redirect user_email => (RedirectResponse 307 ("/users/" +:+ user_email), srv)
  | NoMatch =>
      if String.eqb rest "" then (ErrorResponse 405 "Method Not Allowed", srv)
      else (ErrorResponse 404 "Not Found", srv)
  end.

(** [POST /users/] *)
Definition create_user (user : schemas.UserCreate) (srv : server)
    : response schemas.User * server :=
  let '(r, srv') := get_async_db (main.create_user email_unique user) srv in
  (respond (bind r validate_User), srv').

End Routes.

(** The states of the server that a sequence of user requests, served one
    after the other, leads to. *)
Inductive reachable (email_unique : bool) : server → Prop :=
| reachable_initial : reachable email_unique initial_server
| reachable_get_user srv user_email :
    reachable email_unique srv →
    reachable email_unique (get_user user_email srv).2
| reachable_create_user srv user :
    reachable email_unique srv →
    reachable email_unique (create_user email_unique user srv).2.

(** The emails in the table are pairwise different. *)
Definition emails_unique (rows : list models.User) : Prop :=
  NoDup (models.email <$> rows).

(** Every open session is one that was made. *)
Definition sessions_fresh (srv : server) : Prop :=
  ∀ session, session ∈ open_sessions srv → (session < sessions_made srv)%nat.

(** The response body for a row of the table. *)
Definition user_of_row (row : models.User) : schemas.User :=
  {| schemas.user_email := models.email row;
     schemas.user_full_name := models.full_name row;
     schemas.id := models.id row;
     schemas.is_active := models.is_active row |}.

(** The row that [INSERT] makes for [data] in a table [rows]. *)
Definition new_row (rows : list models.User) (data : schemas.UserCreate) : models.User :=
  {| models.id := next_id rows;
     models.email := schemas.email data;
     models.full_name := schemas.full_name data;
     models.is_active := true |}.

End routes.

(** ** Concrete inputs *)

Module examples.
Import json httpx asyncio sqlalchemy database.

(** The f-string text of the floats used below. *)
#[warnings="-inexact-float"] Definition float_str (seconds : float) : string :=
  if PrimFloat.eqb seconds 0.3 then "0.3"
  else if PrimFloat.eqb seconds 0.1 then "0.1"
  else if PrimFloat.eqb seconds 0.2 then "0.2"
  else "1.0".

#[warnings="-inexact-float"] Definition durations : list float := [0.3; 0.1; 0.2]%float.

(** A JSON parser on the two bodies used below. *)
Definition loads (body : string) : value + string :=
  if String.eqb body "[1]" then inl (JArray [JInt 1])
  else if String.eqb body "null" then inl JNull
  else inr "Expecting value: line 1 column 1 (char 0)".

(** A server that does not answer in time. *)
Definition timing_out : AsyncClient :=
  {| aenter := Return ();
     get := λ _ _, Raise {| cls := TimeoutException; message := "timed out" |};
     aexit := Return () |}.

(** A server that answers 500 with a JSON body. *)
Definition failing_server : AsyncClient :=
  {| aenter := Return ();
     get := λ _ _, Return {| status_code := 500; content := "[1]" |};
     aexit := Return () |}.

(** A server that answers 200 with a page that is not JSON. *)
Definition html_server : AsyncClient :=
  {| aenter := Return ();
     get := λ _ _, Return {| status_code := 200; content := "<html></html>" |};
     aexit := Return () |}.


Definition alice : schemas.UserCreate :=
  {| schemas.email := "a@example.com"; schemas.full_name := Some "Alice" |}.

Definition alice_again : schemas.UserCreate :=
  {| schemas.email := "a@example.com"; schemas.full_name := None |}.

(** The store after [POST /users/] for [alice] on the empty store. *)
Definition one_user : server := (routes.create_user true alice initial_server).2.

End examples.

(** ** The route that joins a lookup and a fetch; more concrete inputs *)

Module routes_external.
Import json httpx sqlalchemy database starlette routes.

Section Routes.

Variable loads : string → value + string.

(** The dictionary of the endpoint is rendered by a [JSONResponse]; a
    fetched document with a float that is not finite makes that raise
    [ValueError], which FastAPI answers with a 500. *)
Definition render (r : result exception (orm_object * value))
    : response (orm_object * value) :=
  match r with
  | Return (user, external_data) =>
      if finite external_data then JSONResponse 200 (user, external_data)
      else ErrorResponse 500 "Internal Server Error"
  | _ => respond r
  end.

(** [GET /user-with-external-data/] followed by [rest].  The endpoint runs
    when [rest] is a segment, which is then [user_email]; it returns a
    dictionary and has no response model: the body is the user object and
    the fetched document.  Otherwise the router answers as for
    [GET /users/], except that nothing else has the path of an empty
    [rest], which is answered 404. *)
Definition get_user_with_external_data (client : AsyncClient) (rest : string)
    (srv : server) : response (orm_object * value) * server :=
  match match_parameter rest with
  | Dispatch user_email =>
      let '(r, srv') :=
        get_async_db (main.get_user_with_external_data loads client user_email) srv in
      (render r, srv')
  | Redirect user_email =>
      (RedirectResponse 307 ("/user-with-external-data/" +:+ user_email), srv)
  | NoMatch => (ErrorResponse 404 "Not Found", srv)
  end.

End Routes.


(** The [id]s in the table are pairwise different, and none is below 1. *)
Definition ids_unique (rows : list models.User) : Prop := NoDup (models.id <$> rows).

Definition ids_positive (rows : list models.User) : Prop :=
  Forall (λ r, 1 ≤ models.id r) rows.

End routes_external.

Module more_examples.
Import json httpx sqlalchemy database.

(** A client that cannot be closed after the response has arrived. *)
Definition close_fails : AsyncClient :=
  {| aenter := Return ();
     get := λ _ _, Return {| status_code := 200; content := "[1]" |};
     aexit := Raise {| cls := OtherException; message := "connection pool is closed" |} |}.

(** A JSON parser that knows one more body, a document of the shape of
    the error value. *)
Definition loads (body : string) : value + string :=
  if String.eqb body "E" then inl (JObject [("error", JString "timed out")])
  else examples.loads body.

(** A server whose body parses to a document of the shape of the error
    value. *)
Definition error_shaped : AsyncClient :=
  {| aenter := Return ();
     get := λ _ _, Return {| status_code := 200; content := "E" |};
     aexit := Return () |}.

(** A table in which two rows have the same email; only a table without
    the uniqueness constraint can get there. *)
Definition twice : server :=
  {| users := [ {| models.id := 1; models.email := "a@example.com";
                   models.full_name := Some "Alice"; models.is_active := true |};
                {| models.id := 2; models.email := "a@example.com";
                   models.full_name := None; models.is_active := true |} ];
     open_sessions := ∅;
     sessions_made := 2 |}.

Definition bob : schemas.UserCreate :=
  {| schemas.email := "b@example.com"; schemas.full_name := Some "Bob" |}.

(** A network on which the comments time out and everything else answers
    500 with a JSON body. *)
Definition mixed_network (url : string) : AsyncClient :=
  if String.eqb url "https://jsonplaceholder.typicode.com/comments/1"
  then examples.timing_out
  else examples.failing_server.

End more_examples.

(** * Theorems *)

Section CpuTask.
Import utils.

Lemma range_succ (n : nat) :
  range (Z.of_nat (S n)) = range (Z.of_nat n) ++ [Z.of_nat n].
Proof.
  unfold range. rewrite !Nat2Z.id, seq_S, fmap_app. reflexivity.
Qed.

Lemma loop_is_sum (n : nat) :
  foldl loop_body 0 (range (Z.of_nat n)) = sum_of_squares_below n.
Proof.
  induction n as [|n IH].
  - reflexivity.
  - rewrite range_succ, foldl_app. cbn [foldl sum_of_squares_below].
    unfold loop_body at 1. now rewrite IH.
Qed.

(** Closed form of the sum: [6 * S(n) = (n-1) * n * (2n-1)]. *)
Lemma sum_of_squares_closed (n : nat) :
  6 * sum_of_squares_below n = (Z.of_nat n - 1) * Z.of_nat n * (2 * Z.of_nat n - 1).
Proof.
  induction n as [|n IH]; [reflexivity|].
  cbn [sum_of_squares_below]. rewrite Nat2Z.inj_succ. nia.
Qed.

(** C9: for every non-negative iteration count [n],
    [simulate_cpu_intensive_task(n)] returns the text
    ["Computed result: S"] where [S] is the decimal rendering of the sum
    of [i*i] for [i] from [0] to [n-1]. *)
Theorem simulate_cpu_intensive_task_sum (n : Z) :
  0 ≤ n →
  (simulate_cpu_intensive_task n).2 =
    "Computed result: " +:+ str_int (sum_of_squares_below (Z.to_nat n)).
Proof.
  intros Hn. unfold simulate_cpu_intensive_task. cbn [snd].
  rewrite <- (Z2Nat.id n) at 1 by exact Hn.
  now rewrite loop_is_sum.
Qed.

Lemma simulate_cpu_intensive_task_sum_witness :
  0 ≤ 4 ∧ (simulate_cpu_intensive_task 4).2 = "Computed result: 14".
Proof.
  split; [lia|]. exact (simulate_cpu_intensive_task_sum 4 ltac:(lia)).
Defined.

End CpuTask.

Section FetchExternalApi.
Import json httpx utils.

Variable loads : string → value + string.

Lemma Response_json_fails_with_Exception (response : Response) :
  fails_with_Exception (Response_json loads response).
Proof. unfold Response_json. destruct (loads _); reflexivity. Qed.

Lemma fetch_attempt_fails_with_Exception client url timeout :
  network_failures client url timeout →
  fails_with_Exception (fetch_attempt loads client url timeout).
Proof.
  intros (Henter & Hget & Hexit). unfold fetch_attempt, async_with.
  destruct (aenter client); [|exact Henter].
  destruct (aexit client); [|exact Hexit].
  destruct (get client url timeout) as [response|e]; [|exact Hget].
  apply Response_json_fails_with_Exception.
Qed.

(** What the attempt does, case by case. *)
Lemma fetch_attempt_success client url timeout response document :
  aenter client = Return () →
  get client url timeout = Return response →
  loads (content response) = inl document →
  aexit client = Return () →
  fetch_attempt loads client url timeout = Return document.
Proof.
  intros Henter Hget Hloads Hexit. unfold fetch_attempt, async_with.
  rewrite Henter, Hexit, Hget. cbn. unfold Response_json. now rewrite Hloads.
Qed.

Lemma fetch_attempt_get_raises client url timeout e :
  aenter client = Return () →
  get client url timeout = Raise e →
  aexit client = Return () →
  fetch_attempt loads client url timeout = Raise e.
Proof.
  intros Henter Hget Hexit. unfold fetch_attempt, async_with.
  now rewrite Henter, Hexit, Hget.
Qed.



End FetchExternalApi.

Section Gather.
Import asyncio.

Context {E A : Type}.
Implicit Types (children : list (coroutine E A)) (futures : list (option A)).

Lemma futures_agree_start children :
  futures_agree children (replicate (length children) None).
Proof.
  intros i a Hi. apply lookup_replicate in Hi as [? _]. discriminate.
Qed.

Lemma child_done_inv children i futures futures' :
  child_done children i futures = Return futures' →
  futures_agree children futures →
  futures_agree children futures' ∧
  length futures' = length futures ∧
  (∀ j, is_Some (futures !! j ≫= id) → is_Some (futures' !! j ≫= id)) ∧
  ((i < length futures)%nat → is_Some (children !! i) → is_Some (futures' !! i ≫= id)).
Proof.
  unfold child_done. intros Hdone Hagree.
  destruct (children !! i) as [child|] eqn:Hchild.
  - destruct (outcome_of child) as [a|e] eqn:Hout; [|discriminate].
    injection Hdone as <-. repeat split.
    + intros j b Hj. destruct (decide (i = j)) as [->|Hne].
      * apply list_lookup_insert_Some in Hj as [(_ & Hb & _)|(? & _)]; [|done].
        injection Hb as <-. eauto.
      * rewrite list_lookup_insert_ne in Hj by done. eauto.
    + apply length_insert.
    + intros j Hj. destruct (decide (i = j)) as [->|Hne].
      * destruct (futures !! j) eqn:Hf; [|by destruct Hj].
        rewrite list_lookup_insert_eq by (by eapply lookup_lt_Some). by eexists.
      * by rewrite list_lookup_insert_ne.
    + intros Hlt _. rewrite list_lookup_insert_eq by done. by eexists.
  - injection Hdone as <-. repeat split; try done; intros _ [? ?]; discriminate.
Qed.

Lemma run_children_inv children order : ∀ futures futures',
  run_children children order futures = Return futures' →
  futures_agree children futures →
  futures_agree children futures' ∧
  length futures' = length futures ∧
  (∀ j, is_Some (futures !! j ≫= id) → is_Some (futures' !! j ≫= id)) ∧
  (∀ i, i ∈ order → (i < length futures)%nat → is_Some (children !! i) →
        is_Some (futures' !! i ≫= id)).
Proof.
  induction order as [|i later IH]; intros futures futures' Hrun Hagree; cbn in Hrun.
  - injection Hrun as <-. repeat split; try done. intros i Hi. by apply elem_of_nil in Hi.
  - destruct (child_done children i futures) as [mid|e] eqn:Hstep; [|discriminate].
    cbn in Hrun.
    destruct (child_done_inv _ _ _ _ Hstep Hagree) as (Hagree1 & Hlen1 & Hmono1 & Hfill1).
    destruct (IH _ _ Hrun Hagree1) as (Hagree2 & Hlen2 & Hmono2 & Hfill2).
    repeat split; [done|congruence|by auto|].
    intros j Hj Hlt Hchild. apply elem_of_cons in Hj as [->|Hj].
    + apply Hmono2, Hfill1; done.
    + apply Hfill2; [done|congruence|done].
Qed.

(** When no child raises, completing children never raises either. *)
Lemma run_children_returns children (rs : list A) order : ∀ futures,
  outcome_of <$> children = Return <$> rs →
  ∃ futures', run_children children order futures = Return futures'.
Proof.
  intros futures Hall. revert futures.
  induction order as [|i later IH]; intros futures; cbn; [by eexists|].
  unfold child_done. destruct (children !! i) as [child|] eqn:Hchild; cbn; [|apply IH].
  assert (Hi : (outcome_of <$> children) !! i = Some (outcome_of child))
    by (by rewrite list_lookup_fmap, Hchild).
  rewrite Hall, list_lookup_fmap in Hi.
  destruct (rs !! i) as [r|]; [|discriminate]. injection Hi as <-. cbn. apply IH.
Qed.

(** Safety: whenever [gather] hands back a list, it is the children's
    results in the order of the children. *)
Lemma gather_results children order (rs : list A) :
  gather children order = Some (Return rs) →
  Forall2 (λ child r, outcome_of child = Return r) children rs.
Proof.
  unfold gather. intros Hg.
  destruct (run_children _ _ _) as [futures|e] eqn:Hrun; [|discriminate].
  destruct (mapM id futures) as [rs'|] eqn:HmapM; [|discriminate].
  injection Hg as <-.
  destruct (run_children_inv _ _ _ _ Hrun (futures_agree_start children))
    as (Hagree & Hlen & _ & _).
  rewrite length_replicate in Hlen.
  apply mapM_Some in HmapM.
  apply Forall2_same_length_lookup. split.
  - apply Forall2_length in HmapM. congruence.
  - intros i child r Hchild Hr.
    destruct (Forall2_lookup_r _ _ _ _ _ HmapM Hr) as (f & Hf & Hfr).
    cbn in Hfr. subst f.
    destruct (Hagree _ _ Hf) as (child' & Hchild' & Hout). congruence.
Qed.

(** Liveness: once every child has completed, in whatever order, and none
    has raised, [gather] hands back the list of results. *)
Lemma gather_completes children order (rs : list A) :
  order ≡ₚ seq 0 (length children) →
  outcome_of <$> children = Return <$> rs →
  gather children order = Some (Return rs).
Proof.
  intros Hperm Hall. unfold gather.
  destruct (run_children_returns children rs order
              (replicate (length children) None) Hall) as (futures & Hrun).
  rewrite Hrun.
  destruct (run_children_inv _ _ _ _ Hrun (futures_agree_start children))
    as (Hagree & Hlen & _ & Hfill).
  rewrite length_replicate in Hlen, Hfill.
  assert (Hlenrs : length rs = length children).
  { apply (f_equal length) in Hall. rewrite !length_fmap in Hall. done. }
  assert (futures = Some <$> rs) as ->.
  { apply list_eq_same_length with (length children); [by rewrite length_fmap|done|].
    intros i x y Hi Hx Hy.
    destruct (lookup_lt_is_Some_2 children i Hi) as [child Hchild].
    destruct (Hfill i) as [a Ha]; [|done|by eexists|].
    { rewrite Hperm. apply elem_of_seq. lia. }
    rewrite Hx in Ha. cbn in Ha. subst x.
    destruct (Hagree _ _ Hx) as (child' & Hchild' & Hout).
    rewrite list_lookup_fmap in Hy. destruct (rs !! i) as [r|] eqn:Hr; [|discriminate].
    injection Hy as <-.
    assert (Hi' : (outcome_of <$> children) !! i = Some (Return a))
      by (by rewrite list_lookup_fmap, Hchild', <- Hout).
    rewrite Hall, list_lookup_fmap, Hr in Hi'. cbn in Hi'. congruence. }
  by rewrite mapM_fmap_Some.
Qed.

End Gather.

Section GatherOrder.
Import json httpx asyncio utils main.

(** C2: for every sequence of operations, whatever their durations and
    whatever the order in which they complete, [gather] returns their
    results in the order of the input sequence. *)
Theorem gather_preserves_input_order {E A} (children : list (coroutine E A)) (rs : list A) :
  outcome_of <$> children = Return <$> rs →
  (∀ order, order ≡ₚ seq 0 (length children) →
     gather children order = Some (Return rs)) ∧
  (∀ order rs', gather children order = Some (Return rs') → rs' = rs).
Proof.
  intros Hall. split.
  - intros order Hperm. by apply gather_completes.
  - intros order rs' Hg. apply gather_results in Hg.
    apply list_eq_Forall2, Forall2_same_length_lookup. split.
    + apply Forall2_length in Hg. apply (f_equal length) in Hall.
      rewrite !length_fmap in Hall. congruence.
    + intros i r' r Hr' Hr.
      destruct (Forall2_lookup_r _ _ _ _ _ Hg Hr') as (child & Hchild & Hout).
      assert (Hi : (outcome_of <$> children) !! i = Some (Return r'))
        by (by rewrite list_lookup_fmap, Hchild; cbn; rewrite Hout).
      rewrite Hall, list_lookup_fmap, Hr in Hi. cbn in Hi. congruence.
Qed.

Section SimulatedWaits.

Variable float_str : float → string.
Variable E : Type.

Lemma simulate_slow_io_operation_outcome (seconds : float) :
  outcome_of (simulate_slow_io_operation float_str E seconds) =
    Return ("Result after " +:+ float_str seconds +:+ " seconds").
Proof. reflexivity. Qed.

(** What one simulated operation does: two lines printed, one sleep of
    the duration asked for between them. *)
Lemma simulate_slow_io_operation_requests (seconds : float) :
  delays_of (simulate_slow_io_operation float_str E seconds) = [seconds] ∧
  stdout_of (simulate_slow_io_operation float_str E seconds) =
    [ "Operation started. Will take " +:+ float_str seconds +:+ " seconds...";
      "Operation finished!" ].
Proof. split; reflexivity. Qed.

Lemma simulated_outcomes (durations : list float) :
  outcome_of <$> (simulate_slow_io_operation float_str E <$> durations) =
  Return <$> ((λ d, "Result after " +:+ float_str d +:+ " seconds") <$> durations).
Proof. rewrite <- !list_fmap_compose. done. Qed.

(** [performance_async] returns the three result strings whatever the
    completion order. *)
Lemma performance_async_results (order : list nat) :
  order ≡ₚ [0; 1; 2]%nat →
  performance_async float_str E order =
    Some (Return {| results := [ "Result after " +:+ float_str 1.0%float +:+ " seconds";
                                 "Result after " +:+ float_str 1.0%float +:+ " seconds";
                                 "Result after " +:+ float_str 1.0%float +:+ " seconds" ];
                    message := "Async operations ran concurrently" |}).
Proof.
  intros Hperm. unfold performance_async.
  pose proof (gather_completes
    (simulate_slow_io_operation float_str E <$> [1.0; 1.0; 1.0]%float) order _
    Hperm (simulated_outcomes _)) as Hlive.
  cbn [fmap list_fmap] in Hlive. by rewrite Hlive.
Qed.

(** [performance_sync] returns the same three strings, after printing and
    sleeping for the three operations one after the other. *)
Lemma performance_sync_results :
  outcome_of (performance_sync float_str E) =
    Return {| results := [ "Result after " +:+ float_str 1.0%float +:+ " seconds";
                           "Result after " +:+ float_str 1.0%float +:+ " seconds";
                           "Result after " +:+ float_str 1.0%float +:+ " seconds" ];
              message := "Operations ran sequentially" |} ∧
  delays_of (performance_sync float_str E) = [1.0; 1.0; 1.0]%float.
Proof. split; reflexivity. Qed.

End SimulatedWaits.

(** [fetch_external_data] returns the documents in the order of [urls]. *)
Lemma fetch_external_data_results (loads : string → value + string)
    (network : string → AsyncClient) (order : list nat) (documents : list value) :
  (λ url, fetch_external_api loads (network url) url default_timeout) <$> urls
    = Return <$> documents →
  order ≡ₚ [0; 1; 2]%nat →
  fetch_external_data loads network order =
    Some (Return {| fetched := documents;
                    fetch_message := "Fetched from multiple APIs concurrently" |}).
Proof.
  intros Hall Hperm. unfold fetch_external_data.
  rewrite (gather_completes _ order documents); [done|by rewrite length_fmap|].
  by rewrite <- list_fmap_compose.
Qed.

End GatherOrder.

Section RecordStore.
Import sqlalchemy database routes.

Implicit Types (rows : list models.User) (s : AsyncSession) (srv : server).

(** *** The query by email *)

Lemma filter_email_absent rows (e : string) :
  e ∉ models.email <$> rows → filter (λ r, models.email r = e) rows = [].
Proof.
  intros Habsent. induction rows as [|r rows IH]; [done|].
  rewrite fmap_cons, not_elem_of_cons in Habsent. destruct Habsent as [Hne Hrest].
  rewrite filter_cons_False by congruence. auto.
Qed.

Lemma filter_email_unique rows (u : models.User) :
  emails_unique rows → u ∈ rows →
  filter (λ r, models.email r = models.email u) rows = [u].
Proof.
  unfold emails_unique. induction rows as [|r rows IH]; intros Hnodup Hin.
  - by apply elem_of_nil in Hin.
  - rewrite fmap_cons in Hnodup. apply NoDup_cons in Hnodup as [Hfresh Hnodup].
    apply elem_of_cons in Hin as [->|Hin].
    + rewrite filter_cons_True by done. by rewrite filter_email_absent.
    + rewrite filter_cons_False; [by apply IH|].
      intros Heq. apply Hfresh. rewrite Heq. by apply list_elem_of_fmap_2.
Qed.

(** [get_user_by_email] by the rows that match. *)
Lemma get_user_by_email_matches (e : string) s :
  utils.get_user_by_email e s =
    match filter (λ r, models.email r = e) (table s) with
    | [] => (Return None, s)
    | [u] => (Return (Some (Persistent u)), s)
    | _ => (Raise MultipleResultsFound, s)
    end.
Proof.
  unfold utils.get_user_by_email, db_bind, execute_select_where_email.
  destruct (filter _ (table s)) as [|u [|v rest]]; reflexivity.
Qed.

Lemma get_user_by_email_absent (e : string) s :
  e ∉ models.email <$> table s → utils.get_user_by_email e s = (Return None, s).
Proof.
  intros Habsent. by rewrite get_user_by_email_matches, filter_email_absent.
Qed.

Lemma get_user_by_email_present (u : models.User) s :
  emails_unique (table s) → u ∈ table s →
  utils.get_user_by_email (models.email u) s = (Return (Some (Persistent u)), s).
Proof.
  intros Huniq Hin. by rewrite get_user_by_email_matches, filter_email_unique.
Qed.

(** *** The insert *)

Lemma next_id_above rows (u : models.User) : u ∈ rows → models.id u < next_id rows.
Proof.
  unfold next_id. induction rows as [|r rows IH]; intros Hin.
  - by apply elem_of_nil in Hin.
  - cbn. apply elem_of_cons in Hin as [->|Hin]; [lia|]. specialize (IH Hin). lia.
Qed.

Lemma next_id_fresh rows : next_id rows ∉ models.id <$> rows.
Proof.
  intros (u & Hid & Hin)%list_elem_of_fmap.
  apply next_id_above in Hin. lia.
Qed.

Lemma filter_id_absent rows (i : Z) :
  i ∉ models.id <$> rows → filter (λ r, models.id r = i) rows = [].
Proof.
  intros Habsent. induction rows as [|r rows IH]; [done|].
  rewrite fmap_cons, not_elem_of_cons in Habsent. destruct Habsent as [Hne Hrest].
  rewrite filter_cons_False by congruence. auto.
Qed.

(** [utils.create_user] in a session that has just been made, for an
    email that is not in the table: the row is appended with the next
    [id], and the object returned is that row. *)
Lemma utils_create_user_fresh email_unique (data : schemas.UserCreate) rows :
  schemas.email data ∉ models.email <$> rows →
  utils.create_user email_unique data (fresh_session rows) =
    (Return (Persistent (new_row rows data)),
     {| table := rows ++ [new_row rows data];
        identity_map := [Persistent (new_row rows data)];
        new := [] |}).
Proof.
  intros Habsent.
  unfold utils.create_user, db_bind, construct, add, commit, fresh_session. cbn.
  unfold insert_row. rewrite (bool_decide_eq_false_2 _ Habsent), andb_false_r.
  cbn. unfold refresh. cbn.
  rewrite filter_app, (filter_id_absent rows) by apply next_id_fresh.
  rewrite filter_cons_True by done. reflexivity.
Qed.

Lemma emails_unique_insert rows (data : schemas.UserCreate) :
  emails_unique rows → schemas.email data ∉ models.email <$> rows →
  emails_unique (rows ++ [new_row rows data]).
Proof.
  unfold emails_unique. intros Huniq Habsent. rewrite fmap_app. cbn.
  apply NoDup_app. split; [done|]. split; [|apply NoDup_singleton].
  intros e He ->%list_elem_of_singleton. done.
Qed.

(** *** The dependency *)

Lemma get_async_db_unfold {A} (request : Db A) srv :
  get_async_db request srv =
    ((request (fresh_session (users srv))).1,
     {| users := table (request (fresh_session (users srv))).2;
        open_sessions :=
          ({[sessions_made srv]} ∪ open_sessions srv)
            ∖ {[sessions_made srv]} ∖ {[sessions_made srv]};
        sessions_made := S (sessions_made srv) |}).
Proof.
  unfold get_async_db, app_bind, try_finally, AsyncSessionLocal, yield, close. cbn.
  destruct (request _) as [r s]. reflexivity.
Qed.

Lemma closed_twice (session : nat) (sessions : gset nat) :
  ({[session]} ∪ sessions) ∖ {[session]} ∖ {[session]} = sessions ∖ {[session]}.
Proof.
  apply set_eq. intros x.
  rewrite !elem_of_difference, elem_of_union, !elem_of_singleton. tauto.
Qed.

Lemma closed_fresh (session : nat) (sessions : gset nat) :
  session ∉ sessions → sessions ∖ {[session]} = sessions.
Proof.
  intros Hfresh. apply set_eq. intros x.
  rewrite elem_of_difference, elem_of_singleton.
  split; [tauto|]. intros Hx. split; [done|]. by intros ->.
Qed.

(** *** The endpoints *)

Lemma main_get_user_absent (e : string) s :
  e ∉ models.email <$> table s →
  main.get_user e s = (Raise (HTTPException 404 "User not found"), s).
Proof.
  intros Habsent. unfold main.get_user, db_bind.
  by rewrite get_user_by_email_absent.
Qed.

Lemma main_get_user_present (u : models.User) s :
  emails_unique (table s) → u ∈ table s →
  main.get_user (models.email u) s = (Return (Persistent u), s).
Proof.
  intros Huniq Hin. unfold main.get_user, db_bind.
  by rewrite get_user_by_email_present.
Qed.

Lemma main_create_user_duplicate email_unique (user : schemas.UserCreate) s :
  emails_unique (table s) → schemas.email user ∈ models.email <$> table s →
  main.create_user email_unique user s =
    (Raise (HTTPException 400 "Email already registered"), s).
Proof.
  intros Huniq (u & Heq & Hin)%list_elem_of_fmap.
  unfold main.create_user, db_bind.
  by rewrite Heq, get_user_by_email_present.
Qed.

Lemma main_create_user_fresh email_unique (user : schemas.UserCreate) rows :
  schemas.email user ∉ models.email <$> rows →
  main.create_user email_unique user (fresh_session rows) =
    (Return (Persistent (new_row rows user)),
     {| table := rows ++ [new_row rows user];
        identity_map := [Persistent (new_row rows user)];
        new := [] |}).
Proof.
  intros Habsent. unfold main.create_user, db_bind.
  rewrite get_user_by_email_absent by done.
  by rewrite utils_create_user_fresh.
Qed.

(** The emails stay pairwise different under [POST /users/]. *)
Lemma create_user_keeps_emails_unique email_unique (user : schemas.UserCreate) srv :
  emails_unique (users srv) →
  emails_unique (users (routes.create_user email_unique user srv).2).
Proof.
  intros Huniq. unfold routes.create_user. rewrite get_async_db_unfold. cbn.
  destruct (decide (schemas.email user ∈ models.email <$> users srv)) as [Hin|Hout].
  - by rewrite main_create_user_duplicate.
  - rewrite main_create_user_fresh by done. cbn. by apply emails_unique_insert.
Qed.

(** [GET /users/] followed by a segment runs the endpoint. *)
Lemma routes_get_user_dispatch (e : string) srv :
  starlette.is_segment e = true →
  routes.get_user e srv =
    (respond (bind (get_async_db (main.get_user e) srv).1 validate_User),
     (get_async_db (main.get_user e) srv).2).
Proof.
  intros Hseg. unfold routes.get_user, starlette.match_parameter. rewrite Hseg.
  by destruct (get_async_db _ srv).
Qed.

(** Otherwise the router answers, and the server is as it was. *)
Lemma routes_get_user_unrouted (e : string) srv :
  starlette.is_segment e = false → (routes.get_user e srv).2 = srv.
Proof.
  intros Hseg. unfold routes.get_user, starlette.match_parameter. rewrite Hseg.
  destruct (starlette.is_segment (starlette.rstrip_slashes e)); [done|].
  by destruct (e =? "")%string.
Qed.

(** A lookup leaves the table as it is. *)
Lemma get_user_keeps_users (e : string) srv : users (routes.get_user e srv).2 = users srv.
Proof.
  destruct (starlette.is_segment e) eqn:Hseg.
  - rewrite routes_get_user_dispatch by done. rewrite get_async_db_unfold.
    cbn [snd users]. unfold main.get_user, db_bind.
    rewrite get_user_by_email_matches.
    by destruct (filter _ _) as [|u [|v rest]].
  - by rewrite routes_get_user_unrouted.
Qed.

Lemma get_async_db_keeps_sessions_fresh {A} (request : Db A) srv :
  sessions_fresh srv →
  sessions_fresh (get_async_db request srv).2 ∧
  open_sessions (get_async_db request srv).2 = open_sessions srv.
Proof.
  intros Hfresh. rewrite get_async_db_unfold. cbn [snd].
  assert (Hnew : sessions_made srv ∉ open_sessions srv).
  { intros Hin. apply Hfresh in Hin. lia. }
  unfold sessions_fresh. cbn [open_sessions sessions_made].
  rewrite closed_twice, closed_fresh by done.
  split; [|done]. intros session Hin. apply Hfresh in Hin. lia.
Qed.

(** In every state that requests lead to, the emails are pairwise
    different and no session is open. *)
Lemma reachable_invariant email_unique srv :
  reachable email_unique srv →
  emails_unique (users srv) ∧ sessions_fresh srv ∧ open_sessions srv = ∅.
Proof.
  induction 1 as [|srv e Hreach (Huniq & Hfresh & Hnone)
                  |srv user Hreach (Huniq & Hfresh & Hnone)].
  - split; [apply NoDup_nil_2|]. split; [|done].
    intros session Hin. by apply not_elem_of_empty in Hin.
  - split; [by rewrite get_user_keeps_users|].
    destruct (starlette.is_segment e) eqn:Hseg.
    + rewrite routes_get_user_dispatch by done. cbn [snd].
      destruct (get_async_db_keeps_sessions_fresh (main.get_user e) srv Hfresh)
        as [Hfresh' Hopen].
      split; [done|congruence].
    + by rewrite routes_get_user_unrouted.
  - split; [by apply create_user_keeps_emails_unique|].
    unfold routes.create_user.
    destruct (get_async_db_keeps_sessions_fresh
                (main.create_user email_unique user) srv Hfresh) as [Hfresh' Hopen].
    destruct (get_async_db _ srv) as [r srv']. cbn in *. split; [done|congruence].
Qed.

End RecordStore.

Section RecordStoreProperties.
Import sqlalchemy database routes.

Implicit Types (rows : list models.User) (s : AsyncSession) (srv : server).

(** C4: when a user with the email of the request is already in the
    store, [POST /users/] answers 400 "Email already registered"; the
    endpoint raises before anything is added to the session, the table is
    left as it was, and it still holds exactly one record with that
    email. *)
Theorem duplicate_email_rejected email_unique (user : schemas.UserCreate) srv :
  emails_unique (users srv) →
  schemas.email user ∈ models.email <$> users srv →
  (routes.create_user email_unique user srv).1 =
    ErrorResponse 400 "Email already registered" ∧
  main.create_user email_unique user (fresh_session (users srv)) =
    (Raise (HTTPException 400 "Email already registered"), fresh_session (users srv)) ∧
  users (routes.create_user email_unique user srv).2 = users srv ∧
  length (filter (λ r, models.email r = schemas.email user)
            (users (routes.create_user email_unique user srv).2)) = 1%nat.
Proof.
  intros Huniq Hin.
  pose proof (main_create_user_duplicate email_unique user
                (fresh_session (users srv)) Huniq Hin) as Hdup.
  unfold routes.create_user. rewrite get_async_db_unfold, Hdup. cbn.
  repeat split.
  apply list_elem_of_fmap in Hin as (u & -> & Hu).
  by rewrite filter_email_unique.
Qed.

(** C5: for an email that is not yet in the store, [POST /users/] stores
    and returns a record with that email and an [id] that no record had;
    looking the email up afterwards finds that record (so does
    [GET /users/{email}] when the email can be a path parameter), and
    looking up an email that no record has finds nothing. *)
Theorem create_then_lookup email_unique (user : schemas.UserCreate) srv :
  schemas.email user ∉ models.email <$> users srv →
  ∃ created : schemas.User,
    (routes.create_user email_unique user srv).1 = JSONResponse 200 created ∧
    schemas.user_email created = schemas.email user ∧
    (schemas.id created ∉ models.id <$> users srv) ∧
    (∃ row, user_of_row row = created ∧
       users (routes.create_user email_unique user srv).2 = users srv ++ [row] ∧
       utils.get_user_by_email (schemas.email user)
         (fresh_session (users (routes.create_user email_unique user srv).2))
       = (Return (Some (Persistent row)),
          fresh_session (users (routes.create_user email_unique user srv).2))) ∧
    (starlette.is_segment (schemas.email user) = true →
     (routes.get_user (schemas.email user)
        (routes.create_user email_unique user srv).2).1 = JSONResponse 200 created) ∧
    (∀ missing : string,
       missing ∉ models.email <$> users (routes.create_user email_unique user srv).2 →
       utils.get_user_by_email missing
         (fresh_session (users (routes.create_user email_unique user srv).2))
       = (Return None,
          fresh_session (users (routes.create_user email_unique user srv).2))).
Proof.
  intros Habsent. exists (user_of_row (new_row (users srv) user)).
  assert (Hfound : ∀ s, table s = users srv ++ [new_row (users srv) user] →
    utils.get_user_by_email (schemas.email user) s =
      (Return (Some (Persistent (new_row (users srv) user))), s)).
  { intros s Hs. rewrite get_user_by_email_matches, Hs, filter_app.
    rewrite filter_email_absent by done. by rewrite filter_cons_True. }
  assert (Htable : users (routes.create_user email_unique user srv).2 =
                   users srv ++ [new_row (users srv) user]).
  { unfold routes.create_user. rewrite get_async_db_unfold.
    by rewrite main_create_user_fresh. }
  split.
  { unfold routes.create_user. rewrite get_async_db_unfold.
    by rewrite main_create_user_fresh. }
  split; [done|]. split; [apply next_id_fresh|].
  split; [|split].
  - exists (new_row (users srv) user). split; [done|]. split; [done|]. by apply Hfound.
  - intros Hseg. rewrite routes_get_user_dispatch by done. rewrite get_async_db_unfold.
    cbn [fst]. unfold main.get_user, db_bind. by rewrite Hfound.
  - intros missing Hmissing. by apply get_user_by_email_absent.
Qed.

(** C6: [get_user_by_email] returns the one record whose email is the
    query string, character for character, and [None] when no record has
    that email; the endpoint then raises [HTTPException(404)], and a
    request [GET /users/{user_email}] is answered 404 "User not found". *)
Theorem get_user_by_email_exact (query : string) srv :
  emails_unique (users srv) →
  let s := fresh_session (users srv) in
  (∀ u, u ∈ users srv → models.email u = query →
     utils.get_user_by_email query s = (Return (Some (Persistent u)), s) ∧
     (starlette.is_segment query = true →
      (routes.get_user query srv).1 = JSONResponse 200 (user_of_row u))) ∧
  (∀ o s', utils.get_user_by_email query s = (Return (Some o), s') →
     ∃ u, o = Persistent u ∧ u ∈ users srv ∧ models.email u = query ∧
          ∀ v, v ∈ users srv → models.email v = query → v = u) ∧
  ((∀ u, u ∈ users srv → models.email u ≠ query) →
     utils.get_user_by_email query s = (Return None, s) ∧
     main.get_user query s = (Raise (HTTPException 404 "User not found"), s) ∧
     (starlette.is_segment query = true →
      (routes.get_user query srv).1 = ErrorResponse 404 "User not found")).
Proof.
  intros Huniq s. split; [|split].
  - intros u Hu <-. split; [by apply get_user_by_email_present|].
    intros Hseg. rewrite routes_get_user_dispatch by done. rewrite get_async_db_unfold.
    by rewrite main_get_user_present.
  - intros o s'. rewrite get_user_by_email_matches.
    destruct (filter _ (table s)) as [|u [|v rest]] eqn:Hf; intros Hget;
      [discriminate| |discriminate].
    injection Hget as <- <-. exists u.
    assert (Hu : u ∈ filter (λ r, models.email r = query) (table s))
      by (rewrite Hf; apply list_elem_of_here).
    apply list_elem_of_filter in Hu as [Hq Hu].
    repeat split; try done.
    intros v Hv Hvq.
    assert (Hvf : v ∈ filter (λ r, models.email r = query) (table s))
      by (by apply list_elem_of_filter).
    rewrite Hf in Hvf. by apply list_elem_of_singleton in Hvf.
  - intros Hnone.
    assert (Habsent : query ∉ models.email <$> users srv).
    { intros (u & -> & Hu)%list_elem_of_fmap. by apply (Hnone u). }
    split; [by apply get_user_by_email_absent|].
    split; [by apply main_get_user_absent|].
    intros Hseg. rewrite routes_get_user_dispatch by done. rewrite get_async_db_unfold.
    by rewrite main_get_user_absent.
Qed.

(** C7: a request that gets its session from [get_async_db] has the
    session open while it runs and closed when it ends, whether the
    endpoint returned or raised: no session is left open. *)
Theorem get_async_db_closes_session {A} (request : Db A) srv :
  (AsyncSessionLocal srv).1 = Return (sessions_made srv) ∧
  sessions_made srv ∈ open_sessions (AsyncSessionLocal srv).2 ∧
  (∀ r srv', get_async_db request srv = (r, srv') →
     r = (request (fresh_session (users srv))).1 ∧
     (sessions_made srv ∉ open_sessions srv') ∧
     open_sessions srv' ⊆ open_sessions srv ∧
     (sessions_fresh srv → open_sessions srv' = open_sessions srv ∧ sessions_fresh srv')).
Proof.
  split; [done|]. split.
  { cbn. apply elem_of_union_l. by apply elem_of_singleton. }
  intros r srv'. rewrite get_async_db_unfold. intros [= <- <-].
  cbn [fst snd open_sessions sessions_made]. rewrite closed_twice.
  split; [done|]. split.
  { rewrite elem_of_difference, elem_of_singleton. tauto. }
  split.
  { intros session. rewrite elem_of_difference. tauto. }
  intros Hfresh. split.
  - apply closed_fresh. intros Hin. apply Hfresh in Hin. lia.
  - intros session (Hopen & _)%elem_of_difference.
    apply Hfresh in Hopen. cbn. lia.
Qed.

End RecordStoreProperties.

Section FetchStatus.
Import json httpx utils.

Variable loads : string → value + string.

(** C10: a response whose body parses as JSON is returned as the parsed
    body whatever its status code; the [{"error": ...}] value comes only
    from an exception raised during the attempt (by the transport or by
    the JSON parser). *)
Theorem fetch_external_api_ignores_status client url timeout :
  (∀ status body document,
     aenter client = Return () → aexit client = Return () →
     get client url timeout = Return {| status_code := status; content := body |} →
     loads body = inl document →
     fetch_external_api loads client url timeout = Return document) ∧
  (∀ v, fetch_external_api loads client url timeout = Return v →
     fetch_attempt loads client url timeout = Return v ∨
     ∃ e, fetch_attempt loads client url timeout = Raise e ∧
          isinstance_Exception e = true ∧ v = error_value (str e)).
Proof.
  split.
  - intros status body document Henter Hexit Hget Hloads.
    unfold fetch_external_api.
    by rewrite (fetch_attempt_success loads client url timeout _ document Henter Hget Hloads Hexit).
  - intros v. unfold fetch_external_api, try_except_Exception.
    destruct (fetch_attempt loads client url timeout) as [document|e]; [by left|].
    destruct (isinstance_Exception e) eqn:He; [|discriminate].
    intros [= <-]. right. by exists e.
Qed.

End FetchStatus.

(** * Concrete runs *)

Section Runs.
Import json httpx asyncio sqlalchemy database routes.

Lemma gather_preserves_input_order_witness :
  let children := utils.simulate_slow_io_operation examples.float_str unit
                    <$> examples.durations in
  let rs := [ "Result after 0.3 seconds"; "Result after 0.1 seconds";
              "Result after 0.2 seconds" ] in
  outcome_of <$> children = Return <$> rs ∧
  gather children [1; 2; 0]%nat = Some (Return rs).
Proof.
  intros children rs.
  assert (Hall : outcome_of <$> children = Return <$> rs) by (vm_compute; reflexivity).
  split; [exact Hall|].
  apply (proj1 (gather_preserves_input_order children rs Hall)).
  etrans; [apply perm_skip, perm_swap|apply perm_swap].
Defined.


(** A body that is not JSON gives the error value with the message of the
    parser. *)
Example fetch_not_json :
  utils.fetch_external_api examples.loads examples.html_server
    "https://example.com/" utils.default_timeout
  = Return (utils.error_value "Expecting value: line 1 column 1 (char 0)").
Proof. vm_compute. reflexivity. Qed.


Lemma fetch_external_api_ignores_status_witness :
  utils.fetch_external_api examples.loads examples.failing_server
    "https://example.com/broken" utils.default_timeout
  = Return (JArray [JInt 1]).
Proof.
  apply (proj1 (fetch_external_api_ignores_status examples.loads examples.failing_server
                  "https://example.com/broken" utils.default_timeout) 500 "[1]");
    reflexivity.
Defined.

Example one_user_table :
  users examples.one_user =
    [ {| models.id := 1; models.email := "a@example.com";
         models.full_name := Some "Alice"; models.is_active := true |} ].
Proof. vm_compute. reflexivity. Qed.

Lemma one_user_unique : emails_unique (users examples.one_user).
Proof. rewrite one_user_table. apply NoDup_singleton. Qed.

Lemma duplicate_email_rejected_witness :
  emails_unique (users examples.one_user) ∧
  schemas.email examples.alice_again ∈ models.email <$> users examples.one_user ∧
  (routes.create_user true examples.alice_again examples.one_user).1 =
    ErrorResponse 400 "Email already registered" ∧
  users (routes.create_user true examples.alice_again examples.one_user).2 =
    users examples.one_user.
Proof.
  assert (Huniq : emails_unique (users examples.one_user))
    by (vm_compute; apply NoDup_singleton).
  assert (Hin : schemas.email examples.alice_again
                  ∈ models.email <$> users examples.one_user)
    by (vm_compute; apply list_elem_of_here).
  split; [exact Huniq|]. split; [exact Hin|].
  destruct (duplicate_email_rejected true examples.alice_again examples.one_user Huniq Hin)
    as (Hresp & _ & Hsame & _).
  split; [exact Hresp|exact Hsame].
Defined.

Lemma create_then_lookup_witness :
  (schemas.email more_examples.bob ∉ models.email <$> users examples.one_user) ∧
  ∃ created : schemas.User,
    (routes.create_user true more_examples.bob examples.one_user).1
      = JSONResponse 200 created ∧
    schemas.user_email created = "b@example.com" ∧
    (schemas.id created ∉ models.id <$> users examples.one_user) ∧
    (routes.get_user "b@example.com"
       (routes.create_user true more_examples.bob examples.one_user).2).1
      = JSONResponse 200 created.
Proof.
  assert (Habsent : schemas.email more_examples.bob
                      ∉ models.email <$> users examples.one_user).
  { vm_compute. intros Hin. apply list_elem_of_singleton in Hin. discriminate. }
  split; [exact Habsent|].
  destruct (create_then_lookup true more_examples.bob examples.one_user Habsent)
    as (created & Hresp & Hemail & Hfresh & _ & Hget & _).
  exists created. split; [exact Hresp|]. split; [exact Hemail|].
  split; [exact Hfresh|]. apply Hget. reflexivity.
Defined.

(** The lookup compares whole strings, letter case included. *)
Lemma get_user_by_email_exact_witness :
  emails_unique (users examples.one_user) ∧
  (routes.get_user "A@example.com" examples.one_user).1 =
    ErrorResponse 404 "User not found".
Proof.
  assert (Huniq : emails_unique (users examples.one_user))
    by (vm_compute; apply NoDup_singleton).
  split; [exact Huniq|].
  destruct (get_user_by_email_exact "A@example.com" examples.one_user Huniq)
    as (_ & _ & Hnone).
  apply Hnone; [|reflexivity]. intros u Hu.
  vm_compute in Hu. apply list_elem_of_singleton in Hu. rewrite Hu. discriminate.
Defined.

Example lookup_of_a_prefix :
  (routes.get_user "a@example" examples.one_user).1 = ErrorResponse 404 "User not found".
Proof. vm_compute. reflexivity. Qed.

(** An email with a slash is stored by [POST /users/] but is no path
    parameter: the router answers the lookup itself.  The same holds for
    the empty email, whose lookup has the path of the [POST] route. *)
Example lookup_unrouted :
  let slashed := {| schemas.email := "a/b@example.com"; schemas.full_name := None |} in
  let empty := {| schemas.email := ""; schemas.full_name := None |} in
  (routes.create_user true slashed initial_server).1 =
    JSONResponse 200 {| schemas.user_email := "a/b@example.com";
                        schemas.user_full_name := None;
                        schemas.id := 1; schemas.is_active := true |} ∧
  (routes.get_user "a/b@example.com" (routes.create_user true slashed initial_server).2).1 =
    ErrorResponse 404 "Not Found" ∧
  (routes.get_user "" (routes.create_user true empty initial_server).2).1 =
    ErrorResponse 405 "Method Not Allowed" ∧
  (routes.get_user "a@example.com/" examples.one_user).1 =
    RedirectResponse 307 "/users/a@example.com".
Proof. vm_compute. repeat split. Qed.

Example lookup_missing :
  (routes.get_user "missing@example.com" examples.one_user).1 =
    ErrorResponse 404 "User not found".
Proof. vm_compute. reflexivity. Qed.

Lemma get_async_db_closes_session_witness :
  (0%nat ∉ open_sessions
     (get_async_db (main.get_user "missing@example.com") initial_server).2) ∧
  (get_async_db (main.get_user "missing@example.com") initial_server).1 =
    Raise (HTTPException 404 "User not found").
Proof.
  destruct (get_async_db_closes_session (main.get_user "missing@example.com")
              initial_server) as (_ & _ & Hclosed).
  destruct (Hclosed _ _ (surjective_pairing _)) as (Hr & Hnot & _).
  split; [exact Hnot|]. rewrite Hr. reflexivity.
Defined.

End Runs.

(** * Further properties of the code *)

Section CpuTaskMore.
Import utils.

(** For every non-negative [n], [simulate_cpu_intensive_task(n)] returns
    the closed form [(n-1) n (2n-1) / 6] of the sum, in decimal. *)
Theorem simulate_cpu_intensive_task_closed_form (n : Z) :
  0 ≤ n →
  (simulate_cpu_intensive_task n).2 =
    "Computed result: " +:+ str_int ((n - 1) * n * (2 * n - 1) / 6).
Proof.
  intros Hn. unfold simulate_cpu_intensive_task. cbn [snd].
  rewrite <- (Z2Nat.id n) at 1 by exact Hn. rewrite loop_is_sum.
  do 2 f_equal. symmetry.
  pose proof (sum_of_squares_closed (Z.to_nat n)) as Hclosed.
  rewrite Z2Nat.id in Hclosed by exact Hn.
  rewrite <- Hclosed, Z.mul_comm. apply Z.div_mul. lia.
Qed.

Lemma simulate_cpu_intensive_task_closed_form_witness :
  0 ≤ 10000000 ∧
  (simulate_cpu_intensive_task 10000000).2 = "Computed result: 333333283333335000000".
Proof.
  split; [lia|].
  rewrite (simulate_cpu_intensive_task_closed_form 10000000 ltac:(lia)).
  vm_compute. reflexivity.
Defined.

(** For an iteration count that is zero or negative the loop body never
    runs: the task prints its two lines and returns the sum [0]. *)
Theorem simulate_cpu_intensive_task_no_iteration (n : Z) :
  n ≤ 0 →
  simulate_cpu_intensive_task n =
    ([ "CPU task started. Will process " +:+ str_int n +:+ " iterations...";
       "CPU task finished!" ],
     "Computed result: 0").
Proof.
  intros Hn. unfold simulate_cpu_intensive_task, range.
  replace (Z.to_nat n) with 0%nat by lia. reflexivity.
Qed.

Lemma simulate_cpu_intensive_task_no_iteration_witness :
  -3 ≤ 0 ∧
  simulate_cpu_intensive_task (-3) =
    ([ "CPU task started. Will process -3 iterations..."; "CPU task finished!" ],
     "Computed result: 0").
Proof.
  split; [lia|]. exact (simulate_cpu_intensive_task_no_iteration (-3) ltac:(lia)).
Defined.

End CpuTaskMore.

Section FetchMore.
Import json httpx utils.

Variable loads : string → value + string.



(** A failure of the client itself is reported like a failure of the
    request: when entering the client fails the GET plays no part, and when
    leaving the client fails the document that was parsed is dropped; in
    both cases the result is [{"error": str(e)}]. *)
Theorem fetch_external_api_client_failure client url timeout e :
  isinstance_Exception e = true →
  (aenter client = Raise e →
   fetch_external_api loads client url timeout =
     Return (JObject [("error", JString (message e))])) ∧
  (aenter client = Return () → aexit client = Raise e →
   fetch_external_api loads client url timeout =
     Return (JObject [("error", JString (message e))])).
Proof.
  intros Hcls. unfold fetch_external_api, try_except_Exception, fetch_attempt, async_with.
  split.
  - intros ->. by rewrite Hcls.
  - intros -> ->. by rewrite Hcls.
Qed.

(** A caller cannot tell a failed fetch from a successful fetch of a
    document that happens to be [{"error": msg}]. *)
Theorem fetch_external_api_error_shaped_body client failing url timeout response c msg :
  aenter client = Return () → aexit client = Return () →
  get client url timeout = Return response →
  loads (content response) = inl (error_value msg) →
  aenter failing = Return () → aexit failing = Return () →
  get failing url timeout = Raise {| cls := c; message := msg |} →
  isinstance_Exception {| cls := c; message := msg |} = true →
  fetch_external_api loads client url timeout =
  fetch_external_api loads failing url timeout.
Proof.
  intros Henter Hexit Hget Hloads Henter' Hexit' Hget' Hcls.
  unfold fetch_external_api.
  rewrite (fetch_attempt_success loads client url timeout response _ Henter Hget Hloads Hexit).
  rewrite (fetch_attempt_get_raises loads failing url timeout _ Henter' Hget' Hexit').
  cbn. by rewrite Hcls.
Qed.

End FetchMore.

Section FetchMoreRuns.
Import json httpx utils.

Lemma fetch_external_api_client_failure_witness :
  fetch_external_api examples.loads more_examples.close_fails
    "https://example.com/" default_timeout
  = Return (JObject [("error", JString "connection pool is closed")]).
Proof.
  apply (proj2 (fetch_external_api_client_failure examples.loads more_examples.close_fails
                  "https://example.com/" default_timeout
                  {| cls := OtherException; message := "connection pool is closed" |}
                  eq_refl)); reflexivity.
Defined.

Lemma fetch_external_api_error_shaped_body_witness :
  fetch_external_api more_examples.loads more_examples.error_shaped
    "https://example.com/" default_timeout
  = fetch_external_api more_examples.loads examples.timing_out
      "https://example.com/" default_timeout.
Proof.
  apply (fetch_external_api_error_shaped_body more_examples.loads
           more_examples.error_shaped examples.timing_out "https://example.com/"
           default_timeout {| status_code := 200; content := "E" |}
           TimeoutException "timed out"); reflexivity.
Defined.

End FetchMoreRuns.

Section RecordStoreMore.
Import json httpx sqlalchemy database routes routes_external.

Implicit Types (rows : list models.User) (s : AsyncSession) (srv : server).

(** *** Helper facts *)

Lemma filter_email_present rows (e : string) :
  e ∈ models.email <$> rows →
  ∃ u rest, filter (λ r, models.email r = e) rows = u :: rest.
Proof.
  intros (u & -> & Hu)%list_elem_of_fmap.
  assert (Hin : u ∈ filter (λ r, models.email r = models.email u) rows)
    by (by apply list_elem_of_filter).
  destruct (filter _ rows) as [|v rest]; [by apply elem_of_nil in Hin|eauto].
Qed.

Lemma get_user_by_email_state (e : string) s : (utils.get_user_by_email e s).2 = s.
Proof.
  rewrite get_user_by_email_matches. by destruct (filter _ _) as [|u [|v rest]].
Qed.

Lemma get_user_by_email_multiple (e : string) s :
  (1 < length (filter (λ r, models.email r = e) (table s)))%nat →
  utils.get_user_by_email e s = (Raise MultipleResultsFound, s).
Proof.
  rewrite get_user_by_email_matches.
  destruct (filter _ _) as [|u [|v rest]]; cbn; [lia|lia|done].
Qed.

Lemma main_get_user_state (e : string) s : (main.get_user e s).2 = s.
Proof.
  unfold main.get_user, db_bind. rewrite get_user_by_email_matches.
  by destruct (filter _ _) as [|u [|v rest]].
Qed.

(** With the email in the table the endpoint raises and leaves the
    session as it was. *)
Lemma main_create_user_present email_unique (user : schemas.UserCreate) s :
  schemas.email user ∈ models.email <$> table s →
  ∃ e, main.create_user email_unique user s = (Raise e, s).
Proof.
  intros (u & rest & Hf)%filter_email_present.
  unfold main.create_user, db_bind. rewrite get_user_by_email_matches, Hf.
  destruct rest; eauto.
Qed.

(** The table after [POST /users/]. *)
Lemma create_user_table email_unique (user : schemas.UserCreate) srv :
  users (routes.create_user email_unique user srv).2 =
    if decide (schemas.email user ∈ models.email <$> users srv)
    then users srv
    else users srv ++ [new_row (users srv) user].
Proof.
  unfold routes.create_user. rewrite get_async_db_unfold. cbn [snd users].
  destruct (decide _) as [Hin|Hout].
  - destruct (main_create_user_present email_unique user
                (fresh_session (users srv)) Hin) as (e & ->). done.
  - by rewrite main_create_user_fresh.
Qed.

Lemma routes_get_user_present (u : models.User) srv :
  starlette.is_segment (models.email u) = true →
  emails_unique (users srv) → u ∈ users srv →
  (routes.get_user (models.email u) srv).1 = JSONResponse 200 (user_of_row u).
Proof.
  intros Hseg Huniq Hu. rewrite routes_get_user_dispatch by done.
  rewrite get_async_db_unfold. by rewrite main_get_user_present.
Qed.

Lemma routes_get_user_absent (e : string) srv :
  starlette.is_segment e = true →
  e ∉ models.email <$> users srv →
  (routes.get_user e srv).1 = ErrorResponse 404 "User not found".
Proof.
  intros Hseg Habsent. rewrite routes_get_user_dispatch by done.
  rewrite get_async_db_unfold. by rewrite main_get_user_absent.
Qed.

(** What the router answers for a path that is not a segment. *)
Lemma routes_get_user_unrouted_response (e : string) srv :
  starlette.is_segment e = false →
  (routes.get_user e srv).1 = ErrorResponse 405 "Method Not Allowed" ∨
  (routes.get_user e srv).1 = ErrorResponse 404 "Not Found" ∨
  ∃ path, (routes.get_user e srv).1 = RedirectResponse 307 path.
Proof.
  intros Hseg. unfold routes.get_user, starlette.match_parameter. rewrite Hseg.
  destruct (starlette.is_segment (starlette.rstrip_slashes e)).
  - right. right. by eexists.
  - destruct (e =? "")%string; [by left|right; by left].
Qed.

Lemma routes_create_user_duplicate email_unique (user : schemas.UserCreate) srv :
  emails_unique (users srv) → schemas.email user ∈ models.email <$> users srv →
  (routes.create_user email_unique user srv).1 =
    ErrorResponse 400 "Email already registered".
Proof.
  intros Huniq Hin. unfold routes.create_user. rewrite get_async_db_unfold.
  by rewrite main_create_user_duplicate.
Qed.

Lemma routes_create_user_fresh email_unique (user : schemas.UserCreate) srv :
  schemas.email user ∉ models.email <$> users srv →
  (routes.create_user email_unique user srv).1 =
    JSONResponse 200 (user_of_row (new_row (users srv) user)).
Proof.
  intros Hout. unfold routes.create_user. rewrite get_async_db_unfold.
  by rewrite main_create_user_fresh.
Qed.

Lemma next_id_positive rows : 1 ≤ next_id rows.
Proof.
  unfold next_id. induction rows as [|r rows IH]; cbn; lia.
Qed.

(** [utils.create_user] whenever the insert goes through. *)
Lemma utils_create_user_inserts email_unique (data : schemas.UserCreate) rows :
  email_unique && bool_decide (schemas.email data ∈ models.email <$> rows) = false →
  utils.create_user email_unique data (fresh_session rows) =
    (Return (Persistent (new_row rows data)),
     {| table := rows ++ [new_row rows data];
        identity_map := [Persistent (new_row rows data)];
        new := [] |}).
Proof.
  intros Hcheck.
  unfold utils.create_user, db_bind, construct, add, commit, fresh_session. cbn.
  unfold insert_row. rewrite Hcheck.
  cbn. unfold refresh. cbn.
  rewrite filter_app, (filter_id_absent rows) by apply next_id_fresh.
  rewrite filter_cons_True by done. reflexivity.
Qed.

(** *** Properties *)

(** When two rows of the table have the email asked for, the lookup raises
    [MultipleResultsFound]: [POST /users/] for that email is answered 500
    and does not reach its 400, leaving the table as it is, and
    [GET /users/{email}], for an email that can be a path parameter, is
    answered 500 too. *)
Theorem duplicate_rows_give_500 email_unique (user : schemas.UserCreate) srv :
  (1 < length (filter (λ r, models.email r = schemas.email user) (users srv)))%nat →
  (routes.create_user email_unique user srv).1 =
    ErrorResponse 500 "Internal Server Error" ∧
  users (routes.create_user email_unique user srv).2 = users srv ∧
  (starlette.is_segment (schemas.email user) = true →
   (routes.get_user (schemas.email user) srv).1 =
     ErrorResponse 500 "Internal Server Error").
Proof.
  intros Htwice.
  pose proof (get_user_by_email_multiple (schemas.email user)
                (fresh_session (users srv)) Htwice) as Hget.
  split; [|split].
  - unfold routes.create_user. rewrite get_async_db_unfold.
    unfold main.create_user, db_bind. by rewrite Hget.
  - unfold routes.create_user. rewrite get_async_db_unfold.
    unfold main.create_user, db_bind. by rewrite Hget.
  - intros Hseg. rewrite routes_get_user_dispatch by done. rewrite get_async_db_unfold.
    unfold main.get_user, db_bind. by rewrite Hget.
Qed.

(** [utils.create_user] does not look for the email itself.  Called for
    an email that is in the table it raises [IntegrityError] and leaves
    the table alone when the column is unique; when it is not, it appends
    a second row with that email, after which looking the email up raises
    [MultipleResultsFound]. *)
Theorem utils_create_user_does_not_check (data : schemas.UserCreate) rows :
  schemas.email data ∈ models.email <$> rows →
  (∃ s, utils.create_user true data (fresh_session rows) = (Raise IntegrityError, s) ∧
        table s = rows) ∧
  (∃ s, utils.create_user false data (fresh_session rows) =
          (Return (Persistent (new_row rows data)), s) ∧
        table s = rows ++ [new_row rows data] ∧
        utils.get_user_by_email (schemas.email data) s =
          (Raise MultipleResultsFound, s)).
Proof.
  intros Hin. split.
  - eexists. split.
    + unfold utils.create_user, db_bind, construct, add, commit, fresh_session. cbn.
      unfold insert_row. rewrite (bool_decide_eq_true_2 _ Hin). cbn. reflexivity.
    + reflexivity.
  - eexists. split; [by apply utils_create_user_inserts|]. split; [done|].
    apply get_user_by_email_multiple. cbn [table].
    destruct (filter_email_present _ _ Hin) as (u & rest & Hf).
    rewrite filter_app, Hf, filter_cons_True by done.
    rewrite length_app. cbn. lia.
Qed.

(** The record that [POST /users/] answers with for a new email, in a
    table whose [id]s are at least 1 and below the last 64-bit integer:
    the email and the full name of the request, active, and an [id] that
    is 1 in an empty table and otherwise the successor of the largest
    [id] in the table, so above every [id] given before. *)
Theorem create_user_response email_unique (user : schemas.UserCreate) srv :
  schemas.email user ∉ models.email <$> users srv →
  (∀ u, u ∈ users srv → 1 ≤ models.id u < 2 ^ 63 - 1) →
  ∃ created : schemas.User,
    (routes.create_user email_unique user srv).1 = JSONResponse 200 created ∧
    schemas.user_email created = schemas.email user ∧
    schemas.user_full_name created = schemas.full_name user ∧
    schemas.is_active created = true ∧
    (users srv = [] → schemas.id created = 1) ∧
    (users srv ≠ [] →
     ∃ last, last ∈ users srv ∧ schemas.id created = models.id last + 1 ∧
             ∀ u, u ∈ users srv → models.id u ≤ models.id last) ∧
    (∀ u, u ∈ users srv → models.id u < schemas.id created) ∧
    1 ≤ schemas.id created < 2 ^ 63.
Proof.
  intros Hout Hids. exists (user_of_row (new_row (users srv) user)).
  split; [by apply routes_create_user_fresh|].
  split; [done|]. split; [done|]. split; [done|].
  assert (Hlargest : users srv ≠ [] →
    ∃ last, last ∈ users srv ∧ next_id (users srv) = models.id last + 1 ∧
            ∀ u, u ∈ users srv → models.id u ≤ models.id last).
  { clear Hout. unfold next_id.
    induction (users srv) as [|r rows IH]; [done|]. intros _.
    destruct rows as [|r' rows].
    - exists r. split; [apply list_elem_of_here|]. split.
      + pose proof (Hids r ltac:(apply list_elem_of_here)). cbn. lia.
      + by intros u ->%list_elem_of_singleton.
    - destruct IH as (last & Hlast & Hnext & Hmax); [|done|].
      { intros u Hu. apply Hids. by apply list_elem_of_further. }
      cbn [fmap list_fmap foldr] in *.
      destruct (Z.le_gt_cases (models.id r) (models.id last)) as [Hle|Hgt].
      + exists last. split; [by apply list_elem_of_further|]. split; [lia|].
        intros u [->|Hu]%elem_of_cons; [done|by apply Hmax].
      + exists r. split; [apply list_elem_of_here|]. split; [lia|].
        intros u [->|Hu]%elem_of_cons; [done|]. specialize (Hmax u Hu). lia. }
  split; [by intros ->|]. split; [exact Hlargest|].
  split; [intros u Hu; by apply next_id_above in Hu|].
  cbn. split; [apply next_id_positive|].
  destruct (users srv) as [|r rows] eqn:Hrows; [done|].
  destruct Hlargest as (last & Hlast & -> & _); [done|].
  pose proof (Hids last Hlast). lia.
Qed.

(** [POST /users/] only ever appends: whatever it answers, the rows that
    were in the table are still there, in place, with at most one row
    after them, and looking up a user who was in the table, by the
    function or by [GET /users/{email}] when the email can be a path
    parameter, gives the same record as before. *)
Theorem create_user_keeps_other_users email_unique (user : schemas.UserCreate) srv u :
  emails_unique (users srv) → u ∈ users srv →
  (∃ added, users (routes.create_user email_unique user srv).2 = users srv ++ added ∧
            (length added ≤ 1)%nat) ∧
  utils.get_user_by_email (models.email u)
    (fresh_session (users (routes.create_user email_unique user srv).2)) =
    (Return (Some (Persistent u)),
     fresh_session (users (routes.create_user email_unique user srv).2)) ∧
  utils.get_user_by_email (models.email u) (fresh_session (users srv)) =
    (Return (Some (Persistent u)), fresh_session (users srv)) ∧
  (starlette.is_segment (models.email u) = true →
   (routes.get_user (models.email u) (routes.create_user email_unique user srv).2).1 =
     JSONResponse 200 (user_of_row u) ∧
   (routes.get_user (models.email u) srv).1 = JSONResponse 200 (user_of_row u)).
Proof.
  intros Huniq Hu.
  pose proof (create_user_keeps_emails_unique email_unique user srv Huniq) as Huniq'.
  assert (Hu' : u ∈ users (routes.create_user email_unique user srv).2).
  { rewrite create_user_table. destruct (decide _); [done|].
    apply elem_of_app. by left. }
  split; [|split; [|split]].
  - rewrite create_user_table. destruct (decide _).
    + exists []. rewrite app_nil_r. split; [done|cbn; lia].
    + eexists [_]. split; [done|cbn; lia].
  - by apply get_user_by_email_present.
  - by apply get_user_by_email_present.
  - intros Hseg. split; by apply routes_get_user_present.
Qed.

(** After [POST /users/] on a table with pairwise different emails,
    whatever the answer was, exactly one row has the email of the request;
    a further request with that email is answered 400 and changes
    nothing. *)
Theorem create_user_settles_email email_unique (user again : schemas.UserCreate) srv :
  emails_unique (users srv) →
  schemas.email again = schemas.email user →
  length (filter (λ r, models.email r = schemas.email user)
            (users (routes.create_user email_unique user srv).2)) = 1%nat ∧
  (routes.create_user email_unique again (routes.create_user email_unique user srv).2).1 =
    ErrorResponse 400 "Email already registered" ∧
  users (routes.create_user email_unique again
           (routes.create_user email_unique user srv).2).2 =
    users (routes.create_user email_unique user srv).2.
Proof.
  intros Huniq Hsame.
  pose proof (create_user_keeps_emails_unique email_unique user srv Huniq) as Huniq'.
  assert (Hin : schemas.email user
                  ∈ models.email <$> users (routes.create_user email_unique user srv).2).
  { rewrite create_user_table. destruct (decide _) as [Hin|Hout]; [done|].
    rewrite fmap_app. apply elem_of_app. right. cbn. apply list_elem_of_here. }
  split; [|split].
  - apply list_elem_of_fmap in Hin as (u & Heq & Hu).
    by rewrite Heq, filter_email_unique.
  - apply routes_create_user_duplicate; [done|by rewrite Hsame].
  - rewrite (create_user_table email_unique again).
    rewrite decide_True; [done|by rewrite Hsame].
Qed.

(** In every state that user requests lead to, served one after the
    other from the first start, the emails are pairwise different, the
    [id]s are pairwise different and at least 1, and no session is open. *)
Theorem reachable_store_invariant email_unique srv :
  reachable email_unique srv →
  emails_unique (users srv) ∧ ids_unique (users srv) ∧ ids_positive (users srv) ∧
  open_sessions srv = ∅.
Proof.
  intros Hreach.
  destruct (reachable_invariant _ _ Hreach) as (Huniq & _ & Hnone).
  split; [done|]. split; [|split; [|done]].
  - clear Huniq Hnone.
    induction Hreach as [|srv e Hreach IH|srv user Hreach IH].
    + apply NoDup_nil_2.
    + unfold ids_unique. by rewrite get_user_keeps_users.
    + unfold ids_unique in *. rewrite create_user_table.
      destruct (decide _); [done|].
      rewrite fmap_app. apply NoDup_app. split; [done|]. split; [|apply NoDup_singleton].
      intros i Hi ->%list_elem_of_singleton. by apply next_id_fresh in Hi.
  - clear Huniq Hnone.
    induction Hreach as [|srv e Hreach IH|srv user Hreach IH].
    + apply Forall_nil_2.
    + unfold ids_positive. by rewrite get_user_keeps_users.
    + unfold ids_positive in *. rewrite create_user_table.
      destruct (decide _); [done|].
      apply Forall_app. split; [done|]. apply Forall_singleton.
      cbn. apply next_id_positive.
Qed.

(** In every such state neither user route answers 500.  A creation is
    answered 400 when the email is taken and 200 with the new record
    otherwise.  A lookup whose path parameter matches is answered 200 with
    the record that has the email, or 404 "User not found" when there is
    none; a lookup that the router does not hand to the endpoint is
    answered 405, 404 "Not Found" or a redirect. *)
Theorem reachable_no_server_error email_unique srv :
  reachable email_unique srv →
  (∀ user : schemas.UserCreate,
     (schemas.email user ∈ models.email <$> users srv ∧
      (routes.create_user email_unique user srv).1 =
        ErrorResponse 400 "Email already registered") ∨
     ((schemas.email user ∉ models.email <$> users srv) ∧
      (routes.create_user email_unique user srv).1 =
        JSONResponse 200 (user_of_row (new_row (users srv) user)))) ∧
  (∀ e : string, starlette.is_segment e = true →
     (∃ u, u ∈ users srv ∧ models.email u = e ∧
           (routes.get_user e srv).1 = JSONResponse 200 (user_of_row u)) ∨
     ((e ∉ models.email <$> users srv) ∧
      (routes.get_user e srv).1 = ErrorResponse 404 "User not found")) ∧
  (∀ (e : string) detail, (routes.get_user e srv).1 ≠ ErrorResponse 500 detail).
Proof.
  intros Hreach. destruct (reachable_invariant _ _ Hreach) as (Huniq & _ & _).
  assert (Hrouted : ∀ e : string, starlette.is_segment e = true →
     (∃ u, u ∈ users srv ∧ models.email u = e ∧
           (routes.get_user e srv).1 = JSONResponse 200 (user_of_row u)) ∨
     ((e ∉ models.email <$> users srv) ∧
      (routes.get_user e srv).1 = ErrorResponse 404 "User not found")).
  { intros e Hseg. destruct (decide (e ∈ models.email <$> users srv)) as [Hin|Hout].
    - left. apply list_elem_of_fmap in Hin as (u & -> & Hu).
      exists u. split; [done|]. split; [done|]. by apply routes_get_user_present.
    - right. split; [done|]. by apply routes_get_user_absent. }
  split; [|split; [exact Hrouted|]].
  - intros user.
    destruct (decide (schemas.email user ∈ models.email <$> users srv)) as [Hin|Hout].
    + left. split; [done|]. by apply routes_create_user_duplicate.
    + right. split; [done|]. by apply routes_create_user_fresh.
  - intros e detail. destruct (starlette.is_segment e) eqn:Hseg.
    + destruct (Hrouted e Hseg) as [(u & _ & _ & ->)|(_ & ->)]; discriminate.
    + destruct (routes_get_user_unrouted_response e srv Hseg) as [->|[->|(path & ->)]];
        discriminate.
Qed.

End RecordStoreMore.

Section LookupsMore.
Import json httpx sqlalchemy database routes routes_external.

Variable loads : string → value + string.

Lemma main_get_user_with_external_data_state client (e : string) (s : AsyncSession) :
  (main.get_user_with_external_data loads client e s).2 = s.
Proof.
  unfold main.get_user_with_external_data, db_bind. rewrite get_user_by_email_matches.
  destruct (filter _ _) as [|u [|v rest]]; try done.
  by destruct (utils.fetch_external_api _ _ _ _).
Qed.

Lemma fetch_external_api_returns client url timeout :
  network_failures client url timeout →
  ∃ document, utils.fetch_external_api loads client url timeout = Return document.
Proof.
  intros Hnet%(fetch_attempt_fails_with_Exception loads).
  unfold utils.fetch_external_api, try_except_Exception.
  destruct (utils.fetch_attempt loads client url timeout) as [document|e]; [by eexists|].
  cbn in Hnet. rewrite Hnet. by eexists.
Qed.

(** The two lookup routes never write: whatever is in the table, even
    rows with the same email, and whatever the network does, the table
    after the request is the table before it. *)
Theorem lookups_keep_table client (e : string) (srv : server) :
  users (routes.get_user e srv).2 = users srv ∧
  users (get_user_with_external_data loads client e srv).2 = users srv.
Proof.
  split; [apply get_user_keeps_users|].
  unfold get_user_with_external_data.
  destruct (starlette.match_parameter e) as [user_email|user_email|]; [|done|done].
  rewrite get_async_db_unfold. cbn [snd users].
  by rewrite main_get_user_with_external_data_state.
Qed.



(** [fetch_external_data], with a network that fails only with exceptions
    proper and whatever the order in which the three fetches complete,
    returns three entries, the entry at each place being what
    [fetch_external_api] returned for the URL at that place: a URL that
    fails puts the error value at its place and leaves the others alone. *)
Theorem fetch_external_data_entries (network : string → AsyncClient) (order : list nat) :
  (∀ url, url ∈ main.urls → network_failures (network url) url utils.default_timeout) →
  order ≡ₚ [0; 1; 2]%nat →
  ∃ posts comments albums,
    main.fetch_external_data loads network order =
      Some (Return {| main.fetched := [posts; comments; albums];
                      main.fetch_message := "Fetched from multiple APIs concurrently" |}) ∧
    utils.fetch_external_api loads
      (network "https://jsonplaceholder.typicode.com/posts/1")
      "https://jsonplaceholder.typicode.com/posts/1" utils.default_timeout = Return posts ∧
    utils.fetch_external_api loads
      (network "https://jsonplaceholder.typicode.com/comments/1")
      "https://jsonplaceholder.typicode.com/comments/1" utils.default_timeout
      = Return comments ∧
    utils.fetch_external_api loads
      (network "https://jsonplaceholder.typicode.com/albums/1")
      "https://jsonplaceholder.typicode.com/albums/1" utils.default_timeout = Return albums.
Proof.
  intros Hnet Hperm.
  destruct (fetch_external_api_returns _ _ _
    (Hnet "https://jsonplaceholder.typicode.com/posts/1"
       ltac:(unfold main.urls; apply list_elem_of_here))) as (posts & Hposts).
  destruct (fetch_external_api_returns _ _ _
    (Hnet "https://jsonplaceholder.typicode.com/comments/1"
       ltac:(unfold main.urls; apply list_elem_of_further, list_elem_of_here)))
    as (comments & Hcomments).
  destruct (fetch_external_api_returns _ _ _
    (Hnet "https://jsonplaceholder.typicode.com/albums/1"
       ltac:(unfold main.urls;
             apply list_elem_of_further, list_elem_of_further, list_elem_of_here)))
    as (albums & Halbums).
  exists posts, comments, albums. split; [|done].
  apply fetch_external_data_results; [|done].
  unfold main.urls. cbn [fmap list_fmap]. by rewrite Hposts, Hcomments, Halbums.
Qed.

End LookupsMore.

Section GatherMore.
Import asyncio.

Context {E A : Type}.
Implicit Types (children : list (coroutine E A)) (futures : list (option A)).





End GatherMore.

Section PerformanceMore.
Import asyncio.

Variable float_str : float → string.
Variable E : Type.


(** [performance_sync] runs the three operations strictly one after the
    other, each printing its last line before the next prints its first,
    with three sleeps of [1.0] in a row, and returns the result strings
    that [performance_async] returns once its three operations have
    completed. *)
Theorem performance_sync_sequential (order : list nat) :
  order ≡ₚ [0; 1; 2]%nat →
  stdout_of (main.performance_sync float_str E) =
    [ "Operation started. Will take " +:+ float_str 1.0%float +:+ " seconds...";
      "Operation finished!";
      "Operation started. Will take " +:+ float_str 1.0%float +:+ " seconds...";
      "Operation finished!";
      "Operation started. Will take " +:+ float_str 1.0%float +:+ " seconds...";
      "Operation finished!" ] ∧
  delays_of (main.performance_sync float_str E) = [1.0; 1.0; 1.0]%float ∧
  ∃ sync_report async_report,
    outcome_of (main.performance_sync float_str E) = Return sync_report ∧
    main.performance_async float_str E order = Some (Return async_report) ∧
    main.results sync_report = main.results async_report.
Proof.
  intros Hperm. split; [reflexivity|]. split; [reflexivity|].
  eexists _, _. split; [reflexivity|]. split; [by apply performance_async_results|].
  reflexivity.
Qed.

End PerformanceMore.

(** * Concrete runs of the further properties *)

Section MoreRuns.
Import json httpx asyncio sqlalchemy database routes routes_external.

Lemma duplicate_rows_give_500_witness :
  (routes.create_user false examples.alice more_examples.twice).1 =
    ErrorResponse 500 "Internal Server Error" ∧
  (routes.get_user "a@example.com" more_examples.twice).1 =
    ErrorResponse 500 "Internal Server Error".
Proof.
  destruct (duplicate_rows_give_500 false examples.alice more_examples.twice)
    as (Hpost & _ & Hget).
  - vm_compute. lia.
  - split; [exact Hpost|]. apply Hget. reflexivity.
Defined.

Lemma utils_create_user_does_not_check_witness :
  ∃ s, utils.create_user true examples.alice_again
         (fresh_session (users examples.one_user)) = (Raise IntegrityError, s) ∧
       table s = users examples.one_user.
Proof.
  apply (utils_create_user_does_not_check examples.alice_again (users examples.one_user)).
  vm_compute. apply list_elem_of_here.
Defined.

Lemma create_user_response_witness :
  ∃ created : schemas.User,
    (routes.create_user true more_examples.bob examples.one_user).1 =
      JSONResponse 200 created ∧
    schemas.user_full_name created = Some "Bob" ∧
    ∃ last, last ∈ users examples.one_user ∧ schemas.id created = models.id last + 1.
Proof.
  destruct (create_user_response true more_examples.bob examples.one_user)
    as (created & Hresp & _ & Hname & _ & _ & Hlast & _).
  - vm_compute. intros Hin. apply list_elem_of_singleton in Hin. discriminate.
  - intros u Hu. vm_compute in Hu. apply list_elem_of_singleton in Hu. subst u.
    cbn. lia.
  - exists created. split; [exact Hresp|]. split; [exact Hname|].
    destruct Hlast as (last & Hin & Hid & _); [vm_compute; discriminate|].
    exists last. split; [exact Hin|exact Hid].
Defined.

Lemma create_user_keeps_other_users_witness :
  (routes.get_user "a@example.com"
     (routes.create_user true more_examples.bob examples.one_user).2).1 =
    JSONResponse 200
      {| schemas.user_email := "a@example.com";
         schemas.user_full_name := Some "Alice";
         schemas.id := 1;
         schemas.is_active := true |}.
Proof.
  destruct (create_user_keeps_other_users true more_examples.bob examples.one_user
              {| models.id := 1; models.email := "a@example.com";
                 models.full_name := Some "Alice"; models.is_active := true |})
    as (_ & _ & _ & Hget).
  - vm_compute. apply NoDup_singleton.
  - vm_compute. apply list_elem_of_here.
  - exact (proj1 (Hget eq_refl)).
Defined.

Lemma create_user_settles_email_witness :
  (routes.create_user true examples.alice_again
     (routes.create_user true examples.alice initial_server).2).1 =
    ErrorResponse 400 "Email already registered".
Proof.
  refine (proj1 (proj2 (create_user_settles_email true examples.alice examples.alice_again
            initial_server _ _))).
  - vm_compute. apply NoDup_nil_2.
  - reflexivity.
Defined.

Lemma reachable_store_invariant_witness :
  reachable true (routes.create_user true examples.alice initial_server).2 ∧
  ids_unique (users (routes.create_user true examples.alice initial_server).2).
Proof.
  assert (Hreach : reachable true (routes.create_user true examples.alice initial_server).2)
    by apply reachable_create_user, reachable_initial.
  split; [exact Hreach|].
  exact (proj1 (proj2 (reachable_store_invariant true _ Hreach))).
Defined.

Lemma reachable_no_server_error_witness :
  reachable true (routes.get_user "x@example.com" initial_server).2 ∧
  (routes.get_user "x@example.com" (routes.get_user "x@example.com" initial_server).2).1 =
    ErrorResponse 404 "User not found".
Proof.
  assert (Hreach : reachable true (routes.get_user "x@example.com" initial_server).2)
    by apply reachable_get_user, reachable_initial.
  split; [exact Hreach|].
  destruct (proj1 (proj2 (reachable_no_server_error true _ Hreach))
              "x@example.com" eq_refl)
    as [(u & Hu & _)|(_ & Hresp)].
  - vm_compute in Hu. by apply elem_of_nil in Hu.
  - exact Hresp.
Defined.


Lemma fetch_external_data_entries_witness :
  ∃ posts comments albums,
    main.fetch_external_data examples.loads more_examples.mixed_network [2; 0; 1]%nat =
      Some (Return {| main.fetched := [posts; comments; albums];
                      main.fetch_message := "Fetched from multiple APIs concurrently" |}) ∧
    comments = utils.error_value "timed out".
Proof.
  destruct (fetch_external_data_entries examples.loads more_examples.mixed_network
              [2; 0; 1]%nat) as (posts & comments & albums & Hdata & _ & Hcomments & _).
  - intros url _. unfold more_examples.mixed_network.
    destruct (String.eqb url _); vm_compute; auto.
  - etrans; [apply perm_swap|apply perm_skip, perm_swap].
  - exists posts, comments, albums. split; [exact Hdata|].
    vm_compute in Hcomments. by injection Hcomments as <-.
Defined.


Lemma performance_sync_sequential_witness :
  delays_of (main.performance_sync examples.float_str unit) = [1.0; 1.0; 1.0]%float.
Proof.
  refine (proj1 (proj2 (performance_sync_sequential examples.float_str unit
            [1; 2; 0]%nat _))).
  etrans; [apply perm_skip, perm_swap|apply perm_swap].
Defined.

End MoreRuns.
